(** * A shallow embedding of the read-images MCP server (src/src/index.ts)

    The file src/src/index.ts holds two programs one after the other: an
    earlier stand-alone OpenRouter script (lines 1-116) and the MCP server
    (lines 118-531).  This development embeds the MCP server: the stdin line
    framer of [ImageAnalysisServer.run], the JSON-RPC envelope loop, the
    method dispatch table, [checkOpenaiKey] and [analyzeImage]; and the
    OpenRouter script: its key and argument checks and its [analyzeImage].

    External collaborators (the file system, sharp, the HTTP client and
    [JSON.parse]) are passed in as parameters of the development. *)

From Stdlib Require Import String Ascii NArith ZArith Lia Bool Recdef List.
Import ListNotations.
Open Scope list_scope.

(** ** Transport framer: [process.stdin.on('data', ...)] in [run] *)
Module Framer.

Definition chars := list ascii.

Definition newline : ascii := "010"%char.

(** Whitespace removed by [String.prototype.trim], restricted to ASCII:
    tab, line feed, vertical tab, form feed, carriage return, space. *)
Definition is_js_space (c : ascii) : bool :=
  match nat_of_ascii c with
  | 9 | 10 | 11 | 12 | 13 | 32 => true
  | _ => false
  end.

Fixpoint trim_start (s : chars) : chars :=
  match s with
  | [] => []
  | c :: t => if is_js_space c then trim_start t else s
  end.

(** [line.trim()] *)
Definition trim (s : chars) : chars := rev (trim_start (rev (trim_start s))).

(** [buffer.indexOf(c)], with [None] for [-1]. *)
Fixpoint index_of (c : ascii) (s : chars) : option nat :=
  match s with
  | [] => None
  | d :: t => if Ascii.eqb d c then Some 0 else option_map S (index_of c t)
  end.

(** The [while (true)] loop of the data handler: take the text before the
    first newline, trim it, drop the newline, skip the line if it is empty,
    and stop when no newline is left in the buffer.  The result is the list
    of lines handed to the JSON-RPC decoder, in order, and the new buffer.
    Every round removes at least one character, so [length buffer + 1]
    rounds always reach the [break]; [fuel] only makes that explicit. *)
Fixpoint drain_loop (fuel : nat) (buffer : chars) : list chars * chars :=
  match fuel with
  | O => ([], buffer)
  | S fuel' =>
      match index_of newline buffer with
      | None => ([], buffer)
      | Some newlineIndex =>
          let line := trim (firstn newlineIndex buffer) in
          let '(lines, rest) := drain_loop fuel' (skipn (S newlineIndex) buffer) in
          (match line with [] => lines | _ => line :: lines end, rest)
      end
  end.

Definition drain (buffer : chars) : list chars * chars :=
  drain_loop (S (length buffer)) buffer.

(** One ['data'] event: [buffer += chunk] and drain. *)
Definition feed (buffer chunk : chars) : list chars * chars :=
  drain (buffer ++ chunk).

(** A sequence of ['data'] events starting from a given buffer; the lines
    of every chunk are emitted before the next chunk is read. *)
Fixpoint feed_all (buffer : chars) (chunks : list chars) : list chars * chars :=
  match chunks with
  | [] => ([], buffer)
  | chunk :: more =>
      let '(lines, buffer') := feed buffer chunk in
      let '(lines', buffer'') := feed_all buffer' more in
      (lines ++ lines', buffer'')
  end.

End Framer.

(** ** JavaScript values read from parsed JSON *)
Module Js.

Local Open Scope string_scope.
#[local] Set Warnings "-register-all".

(** A value produced by [JSON.parse] (numbers restricted to integers). *)
Inductive json :=
| JNull
| JBool (b : bool)
| JNum (n : Z)
| JStr (s : string)
| JArr (items : list json)
| JObj (fields : list (string * json)).

(** A JavaScript value obtained by reading properties: [None] is [undefined]. *)
Definition jsval := option json.

(** JavaScript truthiness, as used by [||], [&&] and [if (!x)]. *)
Definition truthy (v : jsval) : bool :=
  match v with
  | None | Some JNull => false
  | Some (JBool b) => b
  | Some (JNum n) => negb (Z.eqb n 0)
  | Some (JStr s) => negb (String.eqb s "")
  | Some (JArr _) | Some (JObj _) => true
  end.

(** [a || b] *)
Definition js_or (a b : jsval) : jsval := if truthy a then a else b.

(** What a [throw] carries: the server's [McpError] class, or any other
    [Error] (a [TypeError], a [SyntaxError], a Node system error, ...). *)
Inductive thrown :=
| McpError (code message : string)
| JsError (name message : string).

Definition error_message (e : thrown) : string :=
  match e with McpError _ m | JsError _ m => m end.

(** Property lookup on a parsed object: with duplicate keys, [JSON.parse]
    keeps the last one. *)
Fixpoint lookup_last (k : string) (fields : list (string * json)) : jsval :=
  match fields with
  | [] => None
  | (k', v) :: rest =>
      match lookup_last k rest with
      | Some w => Some w
      | None => if String.eqb k k' then Some v else None
      end
  end.

Definition type_error_reading (k : string) : thrown :=
  JsError "TypeError" ("Cannot read properties of undefined (reading '" ++ k ++ "')").

(** [v.k]: a [TypeError] on [undefined] and [null], [undefined] for a
    property that an array, string, number or boolean does not have. *)
Definition get (v : jsval) (k : string) : jsval + thrown :=
  match v with
  | None | Some JNull => inr (type_error_reading k)
  | Some (JObj fields) => inl (lookup_last k fields)
  | Some _ => inl None
  end.

(** [v[0]] *)
Definition get_index0 (v : jsval) : jsval + thrown :=
  match v with
  | None | Some JNull => inr (type_error_reading "0")
  | Some (JArr (x :: _)) => inl (Some x)
  | Some (JStr (String c _)) => inl (Some (JStr (String c EmptyString)))
  | Some _ => inl None
  end.

(** An object literal whose [undefined] members [JSON.stringify] drops. *)
Definition obj (fields : list (string * jsval)) : json :=
  JObj (flat_map (fun '(k, v) => match v with Some j => [(k, j)] | None => [] end)
                 fields).

Fixpoint digits (fuel : nat) (n : N) (acc : string) : string :=
  match fuel with
  | O => acc
  | S fuel' =>
      let d := String (ascii_of_N (48 + N.modulo n 10)) EmptyString in
      if (n <? 10)%N then d ++ acc else digits fuel' (N.div n 10) (d ++ acc)
  end.

(** [String(v)] on the values the messages interpolate. *)
Fixpoint js_string (v : json) : string :=
  match v with
  | JNull => "null"
  | JBool true => "true"
  | JBool false => "false"
  | JNum n =>
      (if (n <? 0)%Z then "-" else "") ++ digits 64 (Z.to_N (Z.abs n)) ""
  | JStr s => s
  | JArr items =>
      String.concat ","
        ((fix go (l : list json) : list string :=
            match l with
            | [] => []
            | JNull :: t => "" :: go t
            | x :: t => js_string x :: go t
            end) items)
  | JObj _ => "[object Object]"
  end.

Definition js_string_u (v : jsval) : string :=
  match v with None => "undefined" | Some j => js_string j end.

(** [s.includes(sub)] *)
Definition includes (s sub : string) : bool :=
  match String.index 0 sub s with Some _ => true | None => false end.

End Js.

(** ** Effects of [analyzeImage] and its error monad *)
Module Effects.
Import Js.
Local Open Scope string_scope.

Definition bytes := list Byte.byte.

(** Options passed to [sharp(...).resize(...)]. *)
Inductive resize_options :=
| ResizeWidth (width : Z)
| ResizeHeight (height : Z).

(** The sharp pipelines [analyzeImage] builds:
    [.jpeg({quality}).toBuffer()] and [.resize(o).jpeg({quality}).toBuffer()]. *)
Inductive sharp_op :=
| JpegOnly (quality : Z)
| ResizeJpeg (o : resize_options) (quality : Z).

(** Externally visible actions of a [tools/call]. *)
Inductive effect :=
| ReadFile (path : string)                 (* fs.readFile *)
| Sharp (op : sharp_op)                    (* a sharp re-encoding pipeline *)
| Warn (model : json)                      (* the "may not support vision" warning *)
| Fetch (api_key : string) (body : json).  (* POST to the chat completions endpoint *)

(** A computation that performs effects and may throw. *)
Definition M (A : Type) : Type := list effect * (A + thrown).

Definition ret {A} (a : A) : M A := ([], inl a).
Definition throw {A} (e : thrown) : M A := ([], inr e).
Definition lift {A} (r : A + thrown) : M A := ([], r).
Definition perform (e : effect) : M unit := ([e], inl tt).

Definition bind {A B} (m : M A) (k : A -> M B) : M B :=
  match m with
  | (tr, inl a) => let '(tr', r) := k a in ((tr ++ tr')%list, r)
  | (tr, inr e) => (tr, inr e)
  end.

Notation "x <- m ;; k" := (bind m (fun x => k))
  (at level 61, m at next level, right associativity).

(** Image metadata as returned by [sharp(buf).metadata()]. *)
Record metadata := { width : option Z; height : option Z }.

(** A [node-fetch] response: status, status text and the body text. *)
Record response := { status : Z; statusText : string; body_text : string }.

(** [response.ok] *)
Definition response_ok (r : response) : bool :=
  (200 <=? status r)%Z && (status r <? 300)%Z.

(** The process environment and the external collaborators of the server. *)
Record world := {
  OPENAI_API_KEY : option string;
  OPENAI_MODEL : option string;
  read_file : string -> bytes + thrown;
  sharp_metadata : bytes -> metadata + thrown;
  sharp_run : bytes -> sharp_op -> bytes + thrown;
  fetch : string -> json -> response + thrown;
  json_parse : string -> option json
}.

(** [JSON.parse(text)] *)
Definition parse_or_throw (w : world) (text : string) : json + thrown :=
  match json_parse w text with
  | Some j => inl j
  | None => inr (JsError "SyntaxError" "Unexpected token in JSON")
  end.

End Effects.

(** ** [analyzeImage] *)
Module Analyze.
Import Js Effects.
Local Open Scope string_scope.

Definition b64_alphabet : string :=
  "ABCDEFGHIJKLMNOPQRSTUVWXYZabcdefghijklmnopqrstuvwxyz0123456789+/".

Definition b64_digit (n : N) : string :=
  match String.get (N.to_nat (N.modulo n 64)) b64_alphabet with
  | Some c => String c EmptyString
  | None => ""
  end.

(** [buffer.toString('base64')] *)
Fixpoint base64 (bs : bytes) : string :=
  match bs with
  | b1 :: b2 :: b3 :: rest =>
      let n := (Byte.to_N b1 * 65536 + Byte.to_N b2 * 256 + Byte.to_N b3)%N in
      b64_digit (n / 262144) ++ b64_digit (n / 4096) ++ b64_digit (n / 64)
        ++ b64_digit n ++ base64 rest
  | [b1; b2] =>
      let n := (Byte.to_N b1 * 65536 + Byte.to_N b2 * 256)%N in
      b64_digit (n / 262144) ++ b64_digit (n / 4096) ++ b64_digit (n / 64) ++ "="
  | [b1] =>
      let n := (Byte.to_N b1 * 65536)%N in
      b64_digit (n / 262144) ++ b64_digit (n / 4096) ++ "=="
  | [] => ""
  end.

(** [path.isAbsolute] on POSIX, for a string argument. *)
Definition isAbsolute (path : string) : bool :=
  match path with
  | String c _ => Ascii.eqb c "/"
  | EmptyString => false
  end.

Definition MAX_DIMENSION : Z := 1024.
Definition JPEG_QUALITY : Z := 85.

(** The sharp pipeline [analyzeImage] runs for given metadata, with the
    maximum dimension and JPEG quality as parameters; [None] when
    [metadata.width && metadata.height] is falsy and the buffer is kept. *)
Definition reencode_plan (max_dimension quality : Z) (md : metadata) : option sharp_op :=
  match width md, height md with
  | Some w, Some h =>
      if negb (w =? 0)%Z && negb (h =? 0)%Z then
        let largerDimension := Z.max w h in
        if (largerDimension >? max_dimension)%Z then
          let resizeOptions :=
            if (w >? h)%Z then ResizeWidth max_dimension else ResizeHeight max_dimension in
          Some (ResizeJpeg resizeOptions quality)
        else Some (JpegOnly quality)
      else None
  | _, _ => None
  end.

(** Reading, probing, re-encoding and base64-encoding the image. *)
Definition prepare_image (w : world) (imagePath : string) : M string :=
  _ <- perform (ReadFile imagePath) ;;
  imageBuffer <- lift (read_file w imagePath) ;;
  md <- lift (sharp_metadata w imageBuffer) ;;
  resizedBuffer <-
    match reencode_plan MAX_DIMENSION JPEG_QUALITY md with
    | Some op => _ <- perform (Sharp op) ;; lift (sharp_run w imageBuffer op)
    | None => ret imageBuffer
    end ;;
  ret (base64 resizedBuffer).

Definition validModels : list string :=
  ["gpt-4.1"; "gpt-4.1-mini"; "gpt-4.1-nano"; "gpt-4o"; "gpt-4o-mini";
   "gpt-4-turbo"; "gpt-4"; "gpt-4-vision-preview"].

(** [a || b] where [b] is a defined value. *)
Definition js_or_value (a : jsval) (b : json) : json :=
  match a with
  | Some j => if truthy a then j else b
  | None => b
  end.

(** [model || process.env.OPENAI_MODEL || "gpt-4.1"] *)
Definition selectModel (w : world) (model : jsval) : json :=
  js_or_value (js_or model (option_map JStr (OPENAI_MODEL w))) (JStr "gpt-4.1").

(** [validModels.includes(selectedModel)] *)
Definition is_valid_model (m : json) : bool :=
  match m with
  | JStr s => existsb (String.eqb s) validModels
  | _ => false
  end.

(** Model selection followed by the warning on an unknown model. *)
Definition check_model (w : world) (model : jsval) : M json :=
  let selectedModel := selectModel w model in
  _ <- (if is_valid_model selectedModel then ret tt else perform (Warn selectedModel)) ;;
  ret selectedModel.

Definition request_body (selectedModel : json) (question : jsval) (base64Image : string) : json :=
  JObj [("model", selectedModel);
        ("messages",
          JArr [JObj [("role", JStr "user");
                      ("content",
                        JArr [JObj [("type", JStr "text");
                                    ("text", js_or_value question (JStr "What's in this image?"))];
                              JObj [("type", JStr "image_url");
                                    ("image_url",
                                      JObj [("url", JStr ("data:image/jpeg;base64," ++ base64Image));
                                            ("detail", JStr "high")])]])]]);
        ("max_tokens", JNum 1000)].

Definition newline_str : string := String "010" EmptyString.

(** The HTTP call and the extraction of [analysis.choices[0].message.content]. *)
Definition post_and_extract (w : world) (key : string) (body : json) : M jsval :=
  _ <- perform (Fetch key body) ;;
  response <- lift (fetch w key body) ;;
  let responseText := body_text response in
  if negb (response_ok response) then
    throw (JsError "Error" ("OpenAI API error: " ++ statusText response ++ newline_str
                              ++ "Details: " ++ responseText))
  else
    analysis <- lift (parse_or_throw w responseText) ;;
    choices <- lift (get (Some analysis) "choices") ;;
    choice <- lift (get_index0 choices) ;;
    message <- lift (get choice "message") ;;
    lift (get message "content").

Definition missing_api_key : thrown :=
  McpError "MissingApiKey" "OPENAI_API_KEY environment variable is required".

(** [analyzeImage(imagePath, question, model)]; its [catch] only logs and
    rethrows, so failures propagate unchanged. *)
Definition analyzeImage (w : world) (imagePath question model : jsval) : M jsval :=
  match imagePath with
  | Some (JStr path) =>
      if negb (isAbsolute path) then
        throw (McpError "InvalidParams" "Image path must be absolute")
      else
        base64Image <- prepare_image w path ;;
        match OPENAI_API_KEY w with
        | Some key =>
            if String.eqb key "" then throw missing_api_key
            else
              selectedModel <- check_model w model ;;
              post_and_extract w key (request_body selectedModel question base64Image)
        | None => throw missing_api_key
        end
  | _ =>
      (* path.isAbsolute validates its argument *)
      throw (JsError "TypeError" "The path argument must be of type string")
  end.

(** The JPEG quality of a sharp pipeline. *)
Definition op_quality (op : sharp_op) : Z :=
  match op with JpegOnly q | ResizeJpeg _ q => q end.

(** Size of the image sharp produces for [op] from a [w] x [h] image, as
    sharp documents it: [jpeg] keeps the size; [resize] given one side
    scales the other side by the same factor, rounded to the nearest pixel. *)
Definition output_dims (w h : Z) (op : sharp_op) : Z * Z :=
  match op with
  | JpegOnly _ => (w, h)
  | ResizeJpeg (ResizeWidth m) _ => (m, (2 * h * m + w) / (2 * w))
  | ResizeJpeg (ResizeHeight m) _ => ((2 * w * m + h) / (2 * h), m)
  end%Z.

End Analyze.

(** ** [ImageAnalysisServer]: dispatch table and the stdin/stdout loop *)
Module Server.
Import Framer Js Effects Analyze.
Local Open Scope string_scope.

(** [v.k] on a value known to be neither [undefined] nor [null]. *)
Definition field (v : json) (k : string) : jsval :=
  match v with
  | JObj fields => lookup_last k fields
  | _ => None
  end.

Definition initialize_result : json :=
  JObj [("protocolVersion", JStr "2024-11-05");
        ("capabilities", JObj [("tools", JObj []); ("logging", JObj [])]);
        ("serverInfo", JObj [("name", JStr "read-images"); ("version", JStr "0.1.0")])].

Definition analyze_image_tool : json :=
  JObj [("name", JStr "analyze_image");
        ("description", JStr "Analyze an image using OpenAI vision models (default: gpt-4.1)");
        ("inputSchema",
          JObj [("type", JStr "object");
                ("properties",
                  JObj [("image_path",
                          JObj [("type", JStr "string");
                                ("description", JStr "Path to the image file to analyze (must be absolute path)")]);
                        ("question",
                          JObj [("type", JStr "string");
                                ("description", JStr "Question to ask about the image")]);
                        ("model",
                          JObj [("type", JStr "string");
                                ("description", JStr "OpenAI model to use (e.g., gpt-4.1, gpt-4.1-mini, gpt-4o, gpt-4o-mini)")])]);
                ("required", JArr [JStr "image_path"])])].

Definition tools_list_result : json := JObj [("tools", JArr [analyze_image_tool])].

(** [{ content: [{ type: 'text', text }], isError }] *)
Definition text_content (text : jsval) (isError : bool) : json :=
  obj [("content", Some (JArr [obj [("type", Some (JStr "text")); ("text", text)]]));
       ("isError", if isError then Some (JBool true) else None)].

(** How a handler invocation ends: the process exits synchronously, or the
    handler's promise settles (resolved value or rejection) after the
    effects in [trace]. *)
Inductive handler_result :=
| Exits (code : Z)
| Settles (outcome : jsval + thrown) (trace : list effect).

(** The exit code used by the ['SIGINT'] listener installed in the
    constructor: [process.on('SIGINT', () => process.exit(0))]. *)
Definition sigint_exit_code : Z := 0.

(** [checkOpenaiKey()]: when the key is unset, [process.emit("SIGINT")] runs
    the listener synchronously and [process.exit(0)] never returns, so the
    [console.error] and [throw new McpError('MissingApiKey', ...)] that
    follow are not reached.  [Some code] means the process exits. *)
Definition checkOpenaiKey (w : world) : option Z :=
  if truthy (option_map JStr (OPENAI_API_KEY w)) then None else Some sigint_exit_code.

(** The body of the [try] block of the [tools/call] handler. *)
Definition tool_attempt (w : world) (params : json) : M jsval :=
  args <- lift (get (Some params) "arguments") ;;
  image_path <- lift (get args "image_path") ;;
  question <- lift (get args "question") ;;
  model <- lift (get args "model") ;;
  analyzeImage w image_path question model.

(** The value of [args.image_path] in [tool_attempt]. *)
Definition image_path_value (params : json) : jsval + thrown :=
  match get (Some params) "arguments" with
  | inl args => get args "image_path"
  | inr e => inr e
  end.

(** The [tools/call] handler. *)
Definition tools_call (w : world) (params : json) : handler_result :=
  match checkOpenaiKey w with
  | Some code => Exits code
  | None =>
      let name := field params "name" in
      match name with
      | Some (JStr "analyze_image") =>
          let '(trace, r) := tool_attempt w params in
          match r with
          | inl result => Settles (inl (Some (text_content result false))) trace
          | inr (McpError code message) => Settles (inr (McpError code message)) trace
          | inr (JsError _ message) =>
              Settles (inl (Some (text_content
                                    (Some (JStr ("Error analyzing image: " ++ message)))
                                    true)))
                      trace
          end
      | _ => Settles (inr (McpError "MethodNotFound" ("Unknown tool: " ++ js_string_u name))) []
      end
  end.

(** [handleRequest(method, params)] with the handlers of [setupHandlers]. *)
Definition handleRequest (w : world) (method : jsval) (params : json) : handler_result :=
  let unknown := Settles (inr (McpError "MethodNotFound" ("Unknown method: " ++ js_string_u method))) [] in
  match method with
  | Some (JStr m) =>
      if String.eqb m "initialize" then Settles (inl (Some initialize_result)) []
      else if String.eqb m "notifications/initialized" then Settles (inl None) []
      else if String.eqb m "tools/list" then Settles (inl (Some tools_list_result)) []
      else if String.eqb m "tools/call" then tools_call w params
      else if String.eqb m "ping" then Settles (inl (Some (JObj []))) []
      else unknown
  | _ => unknown
  end.

(** [request.params || {}] *)
Definition request_params (request : json) : json :=
  js_or_value (field request "params") (JObj []).

(** [this.handleRequest(request.method, request.params || {})] *)
Definition dispatch (w : world) (request : json) : handler_result :=
  handleRequest w (field request "method") (request_params request).

(** Outbound envelopes: [{jsonrpc: '2.0', id, result}] and
    [{jsonrpc: '2.0', id, error: {code, message, data}}]. *)
Inductive envelope :=
| EnvResult (id : json) (result : jsval)
| EnvError (id : json) (code message : string) (data : option string).

Definition envelope_id (e : envelope) : json :=
  match e with EnvResult id _ | EnvError id _ _ _ => id end.

(** [getErrorCode(error)] *)
Definition getErrorCode (e : thrown) : string :=
  match e with
  | McpError code _ => code
  | JsError _ message =>
      if includes message "Unknown method" then "MethodNotFound"
      else if includes message "Invalid params" then "InvalidParams"
      else "InternalError"
  end.

(** [error instanceof McpError ? undefined : error.stack]; a stack starts
    with the error's name and message. *)
Definition error_data (e : thrown) : option string :=
  match e with
  | McpError _ _ => None
  | JsError name message => Some (name ++ ": " ++ message)
  end.

(** [request.id !== undefined && request.id !== null] *)
Definition request_id (request : json) : option json :=
  match field request "id" with
  | None | Some JNull => None
  | Some id => Some id
  end.

(** The [.then] and [.catch] callbacks attached to [handleRequest]. *)
Definition reply (request : json) (outcome : jsval + thrown) : list envelope :=
  match request_id request with
  | Some id =>
      match outcome with
      | inl result => [EnvResult id result]
      | inr e => [EnvError id (getErrorCode e) (error_message e) (error_data e)]
      end
  | None => []
  end.

Definition parse_error_envelope : envelope :=
  EnvError JNull "ParseError" "Invalid JSON-RPC message" None.

(** A handler invocation whose promise has not settled yet. *)
Record task := { task_no : nat; task_request : json; task_outcome : jsval + thrown }.

(** The server process.  [stdout] records every line written, each tagged
    with the task whose callback wrote it ([None] for parse errors). *)
Record state := {
  buffer : chars;
  in_flight : list task;
  next_task : nat;
  stdout : list (option nat * envelope);
  exit_code : option Z
}.

Definition initial_state : state :=
  {| buffer := []; in_flight := []; next_task := 0; stdout := []; exit_code := None |}.

Definition write (st : state) (tag : option nat) (es : list envelope) : state :=
  {| buffer := buffer st; in_flight := in_flight st; next_task := next_task st;
     stdout := stdout st ++ map (pair tag) es; exit_code := exit_code st |}.

Definition set_buffer (st : state) (b : chars) : state :=
  {| buffer := b; in_flight := in_flight st; next_task := next_task st;
     stdout := stdout st; exit_code := exit_code st |}.

Definition exit_with (st : state) (code : Z) : state :=
  {| buffer := buffer st; in_flight := in_flight st; next_task := next_task st;
     stdout := stdout st; exit_code := Some code |}.

Definition spawn (st : state) (request : json) (outcome : jsval + thrown) : state :=
  {| buffer := buffer st;
     in_flight := in_flight st ++ [{| task_no := next_task st; task_request := request;
                                      task_outcome := outcome |}];
     next_task := S (next_task st);
     stdout := stdout st; exit_code := exit_code st |}.

(** The body of the [try] block for one parsed line.  Reading
    [request.method] from [null] throws, and the [catch] then writes the
    parse-error envelope. *)
Definition on_message (w : world) (st : state) (request : json) : state :=
  match request with
  | JNull => write st None [parse_error_envelope]
  | _ =>
      match dispatch w request with
      | Exits code => exit_with st code
      | Settles outcome _ => spawn st request outcome
      end
  end.

(** One non-empty line handed over by the framer. *)
Definition on_line (w : world) (st : state) (line : chars) : state :=
  match exit_code st with
  | Some _ => st
  | None =>
      match json_parse w (string_of_list_ascii line) with
      | None => write st None [parse_error_envelope]
      | Some request => on_message w st request
      end
  end.

(** One ['data'] event. *)
Definition on_data (w : world) (st : state) (chunk : chars) : state :=
  let '(lines, rest) := feed (buffer st) chunk in
  fold_left (on_line w) lines (set_buffer st rest).

(** Settling the promise of task [k]: its callback writes [reply]. *)
Definition settle (st : state) (k : nat) : state :=
  match find (fun t => Nat.eqb (task_no t) k) (in_flight st) with
  | Some t =>
      let st' := write st (Some k) (reply (task_request t) (task_outcome t)) in
      {| buffer := buffer st';
         in_flight := filter (fun t => negb (Nat.eqb (task_no t) k)) (in_flight st');
         next_task := next_task st'; stdout := stdout st'; exit_code := exit_code st' |}
  | None => st
  end.

(** Events of the event loop: a chunk read from stdin, or a pending
    promise settling (in any order). *)
Inductive event :=
| Data (chunk : chars)
| Settle (k : nat).

Definition step (w : world) (st : state) (ev : event) : state :=
  match exit_code st with
  | Some _ => st
  | None =>
      match ev with
      | Data chunk => on_data w st chunk
      | Settle k => settle st k
      end
  end.

Definition run (w : world) (st : state) (evs : list event) : state :=
  fold_left (step w) evs st.

(** The envelopes written by the callbacks of task [k]. *)
Definition written_by (k : nat) (out : list (option nat * envelope)) : list envelope :=
  map snd (filter (fun '(tag, _) => match tag with Some j => Nat.eqb j k | None => false end) out).

End Server.

(** ** The stand-alone OpenRouter script (lines 1-116 of src/src/index.ts) *)
Module Cli.
Import Js Effects Analyze.
Local Open Scope string_scope.

(** The process running the script: [OPENROUTER_API_KEY],
    [process.argv.slice(2)], the file system, sharp and [JSON.parse]
    (taken from [io]), and the OpenRouter chat completions endpoint. *)
Record cli_env := {
  OPENROUTER_API_KEY : option string;
  args : list string;
  io : world;
  openrouter_fetch : string -> json -> response + thrown
}.

Definition MAX_DIMENSION : Z := 400.
Definition JPEG_QUALITY : Z := 60.

Definition request_body (question : jsval) (base64Image : string) : json :=
  JObj [("model", JStr "anthropic/claude-3.5-sonnet");
        ("messages",
          JArr [JObj [("role", JStr "user");
                      ("content",
                        JArr [JObj [("type", JStr "text");
                                    ("text", js_or_value question (JStr "What's in this image?"))];
                              JObj [("type", JStr "image_url");
                                    ("image_url",
                                      JObj [("url", JStr ("data:image/jpeg;base64," ++ base64Image))])]])]])].

(** [analyzeImage(imagePath, question)] of the script; [Fetch] is the POST
    to OpenRouter, and the [catch] only logs and rethrows. *)
Definition analyzeImage (e : cli_env) (key imagePath : string) (question : jsval) : M jsval :=
  _ <- perform (ReadFile imagePath) ;;
  imageBuffer <- lift (read_file (io e) imagePath) ;;
  md <- lift (sharp_metadata (io e) imageBuffer) ;;
  resizedBuffer <-
    match reencode_plan MAX_DIMENSION JPEG_QUALITY md with
    | Some op => _ <- perform (Sharp op) ;; lift (sharp_run (io e) imageBuffer op)
    | None => ret imageBuffer
    end ;;
  let requestBody := request_body question (base64 resizedBuffer) in
  _ <- perform (Fetch key requestBody) ;;
  response <- lift (openrouter_fetch e key requestBody) ;;
  let responseText := body_text response in
  if negb (response_ok response) then
    throw (JsError "Error" ("OpenRouter API error: " ++ statusText response ++ newline_str
                              ++ "Details: " ++ responseText))
  else
    analysis <- lift (parse_or_throw (io e) responseText) ;;
    choices <- lift (get (Some analysis) "choices") ;;
    choice <- lift (get_index0 choices) ;;
    message <- lift (get choice "message") ;;
    lift (get message "content").

(** How a run of the script ends. *)
Inductive outcome :=
| Crashed (error : thrown)   (* uncaught throw while the module loads *)
| Usage                      (* usage message and [process.exit(1)] *)
| Printed (result : jsval)   (* [console.log(result)] *)
| Failed (message : string). (* [console.error('Error:', error.message)] and [process.exit(1)] *)

(** The exit status: an uncaught exception ends Node with status 1. *)
Definition exit_status (o : outcome) : Z :=
  match o with Printed _ => 0 | _ => 1 end.

(** The top level of the script: the key check runs when the module
    loads, then the argument check, then [analyzeImage(args[0], args[1])]. *)
Definition main (e : cli_env) : list effect * outcome :=
  if negb (truthy (option_map JStr (OPENROUTER_API_KEY e))) then
    ([], Crashed (JsError "Error" "OPENROUTER_API_KEY environment variable is required"))
  else if (length (args e) <? 1)%nat then ([], Usage)
  else
    match OPENROUTER_API_KEY e, args e with
    | Some key, imagePath :: _ =>
        let question := option_map JStr (nth_error (args e) 1) in
        let '(trace, r) := analyzeImage e key imagePath question in
        (trace, match r with inl result => Printed result | inr err => Failed (error_message err) end)
    | _, _ => ([], Usage) (* not reached: both were checked above *)
    end.

End Cli.

(** ** Base64 decoding: the inverse of [base64], used by the proofs *)
Module Base64Decode.
Import Js Effects Analyze.

(** Position of [c] in [s], counted from [i]. *)
Fixpoint str_index (c : ascii) (s : string) (i : N) : option N :=
  match s with
  | EmptyString => None
  | String d s' => if Ascii.eqb c d then Some i else str_index c s' (N.succ i)
  end.

(** The value of a base64 digit. *)
Definition b64_value (c : ascii) : option N := str_index c b64_alphabet 0.

(** The character [b64_digit] produces. *)
Definition b64_char (x : N) : ascii :=
  match b64_digit x with String c _ => c | EmptyString => "A"%char end.

(** [b64_digit k] is one character, not ["="], whose value is [k]. *)
Definition digit_ok (k : N) : bool :=
  match b64_digit k with
  | String c EmptyString =>
      match b64_value c with Some j => N.eqb j k | None => false end
      && negb (Ascii.eqb c "=")
  | _ => false
  end.

(** Four base64 digits as a 24-bit number. *)
Definition group (d1 d2 d3 d4 : N) : N := (d1 * 262144 + d2 * 4096 + d3 * 64 + d4)%N.

(** Reads groups of four characters; ["="] pads the last group. *)
Fixpoint decode (s : string) : option bytes :=
  match s with
  | EmptyString => Some []
  | String c1 (String c2 (String c3 (String c4 rest))) =>
      match b64_value c1, b64_value c2 with
      | Some d1, Some d2 =>
          if Ascii.eqb c3 "=" then
            option_map (fun a => [a]) (Byte.of_N (group d1 d2 0 0 / 65536))
          else
            match b64_value c3 with
            | None => None
            | Some d3 =>
                if Ascii.eqb c4 "=" then
                  let n := group d1 d2 d3 0 in
                  match Byte.of_N (n / 65536), Byte.of_N ((n / 256) mod 256) with
                  | Some a, Some b => Some [a; b]
                  | _, _ => None
                  end
                else
                  match b64_value c4 with
                  | None => None
                  | Some d4 =>
                      let n := group d1 d2 d3 d4 in
                      match Byte.of_N (n / 65536), Byte.of_N ((n / 256) mod 256),
                            Byte.of_N (n mod 256), decode rest with
                      | Some a, Some b, Some c, Some r => Some (a :: b :: c :: r)
                      | _, _, _, _ => None
                      end
                  end
            end
      | _, _ => None
      end
  | _ => None
  end.

End Base64Decode.

(** ** Predicates on server states used by the proofs *)
Module Invariants.
Import Framer Js Effects Server.

Definition tag_below (n : nat) (o : option nat * envelope) : Prop :=
  match fst o with Some k => k < n | None => True end.

(** Task numbers and output tags are below the next task number. *)
Definition wf (st : state) : Prop :=
  Forall (fun t => task_no t < next_task st) (in_flight st) /\
  Forall (tag_below (next_task st)) (stdout st).

(** Task [t] is in flight and is the only one with its number. *)
Definition pending (t : task) (st : state) : Prop :=
  In t (in_flight st) /\ task_no t < next_task st /\
  (forall t', In t' (in_flight st) -> task_no t' = task_no t -> t' = t).

(** Task [k] was started and is no longer in flight. *)
Definition settled (k : nat) (st : state) : Prop :=
  k < next_task st /\ (forall t', In t' (in_flight st) -> task_no t' <> k).

(** [st'] is [st] after untagged writes and newly started tasks. *)
Definition grows (st st' : state) : Prop :=
  next_task st <= next_task st' /\
  (exists es, stdout st' = stdout st ++ map (pair None) es) /\
  (exists ts, in_flight st' = in_flight st ++ ts /\
              Forall (fun t => next_task st <= task_no t) ts).

(** A result that is not an [McpError]. *)
Definition not_mcp {A} (r : A + thrown) : Prop :=
  match r with inr (McpError _ _) => False | _ => True end.

(** The file system, sharp and the HTTP client never throw an [McpError]:
    only the server's own code constructs one. *)
Definition js_errors_only (w : world) : Prop :=
  (forall p, not_mcp (read_file w p)) /\
  (forall b, not_mcp (sharp_metadata w b)) /\
  (forall b op, not_mcp (sharp_run w b op)) /\
  (forall key body, not_mcp (fetch w key body)).

End Invariants.

(** ** Concrete environments and messages *)
Module Scenarios.
Import Js Effects Analyze Server.
Local Open Scope string_scope.

Definition png_bytes : bytes := [Byte.x89; Byte.x50; Byte.x4e; Byte.x47].

(** A configured server whose provider rejects the key with 401. *)
Definition world_401 : world := {|
  OPENAI_API_KEY := Some "sk-test";
  OPENAI_MODEL := None;
  read_file := fun _ => inl png_bytes;
  sharp_metadata := fun _ => inl {| width := Some 2048%Z; height := Some 1536%Z |};
  sharp_run := fun b _ => inl b;
  fetch := fun _ _ => inl {| status := 401; statusText := "Unauthorized";
                             body_text := "Incorrect API key provided" |};
  json_parse := fun _ => None
|}.

(** The same server started without [OPENAI_API_KEY]. *)
Definition world_no_key : world := {|
  OPENAI_API_KEY := None;
  OPENAI_MODEL := None;
  read_file := read_file world_401;
  sharp_metadata := sharp_metadata world_401;
  sharp_run := sharp_run world_401;
  fetch := fetch world_401;
  json_parse := json_parse world_401
|}.

(** A server with [OPENAI_MODEL=gpt-4o]. *)
Definition world_env_model : world := {|
  OPENAI_API_KEY := Some "sk-test";
  OPENAI_MODEL := Some "gpt-4o";
  read_file := read_file world_401;
  sharp_metadata := sharp_metadata world_401;
  sharp_run := sharp_run world_401;
  fetch := fetch world_401;
  json_parse := json_parse world_401
|}.

Definition call_request (id : json) (arguments : json) : json :=
  JObj [("jsonrpc", JStr "2.0"); ("id", id); ("method", JStr "tools/call");
        ("params", JObj [("name", JStr "analyze_image"); ("arguments", arguments)])].

Definition ping_request (id : json) : json :=
  JObj [("jsonrpc", JStr "2.0"); ("id", id); ("method", JStr "ping")].

Definition screenshot_args : json := JObj [("image_path", JStr "/tmp/shot.png")].

(** The message [analyzeImage] throws on the 401 of [world_401]. *)
Definition unauthorized_message : string :=
  "OpenAI API error: Unauthorized" ++ newline_str ++ "Details: Incorrect API key provided".

(** A server whose [JSON.parse] returns [v] for every line. *)
Definition world_parses (v : json) : world := {|
  OPENAI_API_KEY := Some "sk-test";
  OPENAI_MODEL := None;
  read_file := read_file world_401;
  sharp_metadata := sharp_metadata world_401;
  sharp_run := sharp_run world_401;
  fetch := fetch world_401;
  json_parse := fun _ => Some v
|}.

(** A provider that answers 200 with the empty JSON object. *)
Definition world_no_choices : world := {|
  OPENAI_API_KEY := Some "sk-test";
  OPENAI_MODEL := None;
  read_file := read_file world_401;
  sharp_metadata := sharp_metadata world_401;
  sharp_run := sharp_run world_401;
  fetch := fun _ _ => inl {| status := 200; statusText := "OK";
                             body_text := "{}" |};
  json_parse := fun _ => Some (JObj [])
|}.

(** A request for a method the server does not have. *)
Definition resources_list_request : json :=
  JObj [("jsonrpc", JStr "2.0"); ("id", JStr "7"); ("method", JStr "resources/list")].

(** The [notifications/initialized] notification sent with an id. *)
Definition initialized_request : json :=
  JObj [("jsonrpc", JStr "2.0"); ("id", JStr "7"); ("method", JStr "notifications/initialized")].


(** [node index.js shot.png] with a key OpenRouter rejects with 401. *)
Definition cli_401 : Cli.cli_env := {|
  Cli.OPENROUTER_API_KEY := Some "sk-or-test";
  Cli.args := ["shot.png"];
  Cli.io := world_401;
  Cli.openrouter_fetch := fetch world_401
|}.



(** The 401 response of [world_401]. *)
Definition response_401 : response :=
  {| status := 401; statusText := "Unauthorized"; body_text := "Incorrect API key provided" |}.

End Scenarios.

(** * Proofs *)

(** ** Framer *)
Module FramerFacts.
Import Framer.

Lemma index_of_lt c s i : index_of c s = Some i -> i < length s.
Proof.
  revert i; induction s as [|d t IH]; simpl; intros i H; [discriminate|].
  destruct (Ascii.eqb d c).
  - injection H as <-; lia.
  - destruct (index_of c t) as [j|] eqn:E; simpl in H; [|discriminate].
    injection H as <-; specialize (IH j eq_refl); lia.
Qed.

Lemma index_of_app_some c s t i :
  index_of c s = Some i -> index_of c (s ++ t) = Some i.
Proof.
  revert i; induction s as [|d s IH]; simpl; intros i H; [discriminate|].
  destruct (Ascii.eqb d c); [assumption|].
  destruct (index_of c s) as [j|]; simpl in H; [|discriminate].
  rewrite (IH j eq_refl); assumption.
Qed.

Lemma drain_loop_fuel f g s :
  length s < f -> length s < g -> drain_loop f s = drain_loop g s.
Proof.
  revert g s; induction f as [|f IH]; intros g s Hf Hg; [lia|].
  destruct g as [|g]; [lia|]. cbn [drain_loop].
  destruct (index_of newline s) as [i|] eqn:E; [|reflexivity].
  apply index_of_lt in E.
  rewrite (IH g (skipn (S i) s)); [reflexivity| |]; rewrite length_skipn; lia.
Qed.

Lemma drain_none s : index_of newline s = None -> drain s = ([], s).
Proof. intros H. unfold drain. cbn [drain_loop]. rewrite H. reflexivity. Qed.

Lemma drain_some s i :
  index_of newline s = Some i ->
  drain s =
  (let line := trim (firstn i s) in
   let '(lines, rest) := drain (skipn (S i) s) in
   (match line with [] => lines | _ => line :: lines end, rest)).
Proof.
  intros H. unfold drain at 1. cbn [drain_loop]. rewrite H.
  pose proof (index_of_lt _ _ _ H).
  rewrite (drain_loop_fuel (length s) (S (length (skipn (S i) s))));
    [reflexivity| |]; rewrite length_skipn; lia.
Qed.

(** Draining a concatenation: first the lines of the prefix, then the lines
    of what the prefix leaves in the buffer followed by the suffix. *)
Lemma drain_app s t :
  drain (s ++ t) =
  (let '(lines, rest) := drain s in
   let '(lines', rest') := drain (rest ++ t) in (lines ++ lines', rest')).
Proof.
  remember (length s) as n eqn:En.
  revert s t En; induction n as [n IH] using lt_wf_ind; intros s t En.
  destruct (index_of newline s) as [i|] eqn:E.
  - pose proof (index_of_lt _ _ _ E) as Hi.
    rewrite (drain_some s i E), (drain_some (s ++ t) i (index_of_app_some _ _ _ _ E)).
    rewrite firstn_app, skipn_app.
    replace (i - length s) with 0 by lia.
    replace (S i - length s) with 0 by lia.
    rewrite firstn_O, skipn_O, app_nil_r.
    rewrite (IH (length (skipn (S i) s))) by (rewrite ?length_skipn; lia).
    destruct (drain (skipn (S i) s)) as [ls r].
    destruct (trim (firstn i s)); simpl;
      destruct (drain (r ++ t)); reflexivity.
  - rewrite (drain_none s E). simpl.
    destruct (drain (s ++ t)); reflexivity.
Qed.

Lemma drain_rest s : index_of newline (snd (drain s)) = None.
Proof.
  remember (length s) as n eqn:En.
  revert s En; induction n as [n IH] using lt_wf_ind; intros s En.
  destruct (index_of newline s) as [i|] eqn:E.
  - pose proof (index_of_lt _ _ _ E).
    rewrite (drain_some s i E).
    specialize (IH (length (skipn (S i) s))).
    rewrite length_skipn in IH.
    specialize (IH ltac:(lia) (skipn (S i) s) ltac:(rewrite length_skipn; lia)).
    destruct (drain (skipn (S i) s)) as [ls r].
    destruct (trim (firstn i s)); exact IH.
  - rewrite (drain_none s E). exact E.
Qed.

Lemma drain_lines_nonempty s : Forall (fun l => l <> []) (fst (drain s)).
Proof.
  remember (length s) as n eqn:En.
  revert s En; induction n as [n IH] using lt_wf_ind; intros s En.
  destruct (index_of newline s) as [i|] eqn:E.
  - pose proof (index_of_lt _ _ _ E).
    rewrite (drain_some s i E).
    specialize (IH (length (skipn (S i) s))).
    rewrite length_skipn in IH.
    specialize (IH ltac:(lia) (skipn (S i) s) ltac:(rewrite length_skipn; lia)).
    destruct (drain (skipn (S i) s)) as [ls r].
    destruct (trim (firstn i s)) as [|c l]; simpl in *; [exact IH|].
    constructor; [discriminate|exact IH].
  - rewrite (drain_none s E). constructor.
Qed.

(** Between two ['data'] events the buffer holds no newline, and from such
    a buffer a sequence of chunks yields what their concatenation yields. *)
Lemma feed_all_concat buffer chunks :
  index_of newline buffer = None ->
  feed_all buffer chunks = drain (buffer ++ concat chunks).
Proof.
  revert buffer; induction chunks as [|c cs IH]; intros buffer Hb; simpl.
  - rewrite app_nil_r, (drain_none _ Hb). reflexivity.
  - unfold feed. rewrite app_assoc, (drain_app (buffer ++ c)).
    pose proof (drain_rest (buffer ++ c)) as Hr.
    destruct (drain (buffer ++ c)) as [ls r]. simpl in Hr.
    rewrite (IH r Hr). reflexivity.
Qed.

(** C7. Whatever way the input is cut into ['data'] chunks (inside an
    envelope or at the newline), the framer hands over the same lines, in
    the same order, and keeps the same pending text as for the uncut input;
    after every chunk no complete line is left in the buffer; and blank
    lines never reach the decoder. *)
Theorem framer_split_invariant (chunks : list chars) :
  feed_all [] chunks = feed [] (concat chunks) /\
  (forall buffer chunk, index_of newline (snd (feed buffer chunk)) = None) /\
  Forall (fun line => line <> []) (fst (feed_all [] chunks)).
Proof.
  assert (H : feed_all [] chunks = feed [] (concat chunks))
    by (apply feed_all_concat; reflexivity).
  split; [exact H|split].
  - intros buffer chunk. apply drain_rest.
  - rewrite H. apply drain_lines_nonempty.
Qed.

Lemma framer_split_invariant_witness :
  let chunks := [list_ascii_of_string "pi";
                 (list_ascii_of_string "ng" ++ [newline; newline] ++ list_ascii_of_string "x")%list;
                 (list_ascii_of_string "y" ++ [newline])%list] in
  feed_all [] chunks = feed [] (concat chunks) /\
  (forall buffer chunk, index_of newline (snd (feed buffer chunk)) = None) /\
  Forall (fun line => line <> []) (fst (feed_all [] chunks)).
Proof.
  intros chunks. apply (framer_split_invariant chunks).
Defined.

End FramerFacts.

(** ** The event loop *)
Module LoopFacts.
Import Framer Js Effects Analyze Server Invariants.

Lemma run_exited w st evs c : exit_code st = Some c -> run w st evs = st.
Proof.
  revert st; induction evs as [|ev evs IH]; intros st H; [reflexivity|].
  change (run w (step w st ev) evs = st).
  replace (step w st ev) with st by (unfold step; rewrite H; reflexivity).
  apply IH, H.
Qed.

Lemma run_alive_before w st evs :
  exit_code (run w st evs) = None -> exit_code st = None.
Proof.
  intros H. destruct (exit_code st) as [c|] eqn:E; [|reflexivity].
  rewrite (run_exited w st evs c E) in H. congruence.
Qed.

Lemma grows_refl st : grows st st.
Proof.
  split; [lia|split].
  - exists []. simpl. rewrite app_nil_r. reflexivity.
  - exists []. rewrite app_nil_r. split; [reflexivity|constructor].
Qed.

Lemma grows_trans st1 st2 st3 : grows st1 st2 -> grows st2 st3 -> grows st1 st3.
Proof.
  intros (Hn1 & [es1 Ho1] & [ts1 [Hi1 Hf1]]) (Hn2 & [es2 Ho2] & [ts2 [Hi2 Hf2]]).
  split; [lia|split].
  - exists (es1 ++ es2). rewrite Ho2, Ho1, map_app, app_assoc. reflexivity.
  - exists (ts1 ++ ts2). rewrite Hi2, Hi1, app_assoc. split; [reflexivity|].
    apply Forall_app; split; [exact Hf1|].
    eapply Forall_impl; [|exact Hf2]. intros t Ht; simpl in Ht; lia.
Qed.

Lemma on_message_grows w st request : grows st (on_message w st request).
Proof.
  unfold on_message.
  assert (Hw : grows st (write st None [parse_error_envelope])).
  { split; [simpl; lia|split].
    - exists [parse_error_envelope]. reflexivity.
    - exists []. simpl. rewrite app_nil_r. split; [reflexivity|constructor]. }
  destruct request; try exact Hw;
    (destruct (dispatch w _) as [code|outcome trace];
     [ split; [simpl; lia|split];
       [ exists []; simpl; rewrite app_nil_r; reflexivity
       | exists []; simpl; rewrite app_nil_r; split; [reflexivity|constructor] ]
     | split; [simpl; lia|split];
       [ exists []; simpl; rewrite app_nil_r; reflexivity
       | eexists; split; [reflexivity|]; repeat constructor; simpl; lia ] ]).
Qed.

Lemma on_line_grows w st line : grows st (on_line w st line).
Proof.
  unfold on_line. destruct (exit_code st); [apply grows_refl|].
  destruct (json_parse w _) as [request|]; [apply on_message_grows|].
  split; [simpl; lia|split].
  - exists [parse_error_envelope]. reflexivity.
  - exists []. simpl. rewrite app_nil_r. split; [reflexivity|constructor].
Qed.

Lemma fold_on_line_grows w lines st : grows st (fold_left (on_line w) lines st).
Proof.
  revert st; induction lines as [|l ls IH]; intros st; simpl; [apply grows_refl|].
  eapply grows_trans; [apply on_line_grows|apply IH].
Qed.

Lemma on_data_grows w st chunk : grows st (on_data w st chunk).
Proof.
  unfold on_data. destruct (feed (buffer st) chunk) as [lines rest].
  eapply grows_trans; [|apply fold_on_line_grows].
  (* [set_buffer] only replaces the buffer *)
  split; [simpl; lia|split].
  - exists []. simpl. rewrite app_nil_r. reflexivity.
  - exists []. simpl. rewrite app_nil_r. split; [reflexivity|constructor].
Qed.

Lemma written_by_app k o1 o2 :
  written_by k (o1 ++ o2) = written_by k o1 ++ written_by k o2.
Proof. unfold written_by. rewrite filter_app, map_app. reflexivity. Qed.

Lemma written_by_untagged k es : written_by k (map (pair None) es) = [].
Proof. induction es as [|e es IH]; [reflexivity|exact IH]. Qed.

Lemma written_by_tagged k es : written_by k (map (pair (Some k)) es) = es.
Proof.
  induction es as [|e es IH]; [reflexivity|].
  unfold written_by in *; simpl. rewrite Nat.eqb_refl. simpl. f_equal. exact IH.
Qed.

Lemma written_by_other k k' es : k' <> k -> written_by k (map (pair (Some k')) es) = [].
Proof.
  intros Hne. induction es as [|e es IH]; [reflexivity|].
  unfold written_by in *; simpl.
  destruct (Nat.eqb_spec k' k); [contradiction|exact IH].
Qed.

Lemma grows_written_by k st st' :
  grows st st' -> written_by k (stdout st') = written_by k (stdout st).
Proof.
  intros (_ & [es Ho] & _). rewrite Ho, written_by_app, written_by_untagged, app_nil_r.
  reflexivity.
Qed.

Lemma grows_pending t st st' : grows st st' -> pending t st -> pending t st'.
Proof.
  intros (Hn & _ & [ts [Hi Hf]]) (Hin & Hlt & Hu).
  split; [rewrite Hi; apply in_or_app; left; exact Hin|split; [lia|]].
  intros t' Ht' Heq. rewrite Hi in Ht'. apply in_app_or in Ht' as [Ht'|Ht'].
  - apply Hu; assumption.
  - rewrite Forall_forall in Hf. specialize (Hf t' Ht'). lia.
Qed.

Lemma grows_settled k st st' : grows st st' -> settled k st -> settled k st'.
Proof.
  intros (Hn & _ & [ts [Hi Hf]]) (Hlt & Hno).
  split; [lia|]. intros t' Ht' Heq. rewrite Hi in Ht'.
  apply in_app_or in Ht' as [Ht'|Ht'].
  - exact (Hno t' Ht' Heq).
  - rewrite Forall_forall in Hf. specialize (Hf t' Ht'). lia.
Qed.

Lemma find_pending t st :
  pending t st ->
  find (fun t' => Nat.eqb (task_no t') (task_no t)) (in_flight st) = Some t.
Proof.
  intros (Hin & _ & Hu).
  destruct (find _ _) as [t0|] eqn:E.
  - apply find_some in E as [Hin0 Heq]. apply Nat.eqb_eq in Heq.
    f_equal. apply Hu; assumption.
  - eapply find_none in E; [|exact Hin]. rewrite Nat.eqb_refl in E. discriminate.
Qed.

Lemma settle_self t st :
  pending t st ->
  settled (task_no t) (settle st (task_no t)) /\
  written_by (task_no t) (stdout (settle st (task_no t))) =
    written_by (task_no t) (stdout st) ++ reply (task_request t) (task_outcome t).
Proof.
  intros Hp. unfold settle. rewrite (find_pending t st Hp).
  destruct Hp as (_ & Hlt & _). split.
  - split; [exact Hlt|]. simpl. intros t' Ht' Heq.
    apply filter_In in Ht' as [_ Hf]. rewrite Heq, Nat.eqb_refl in Hf. discriminate.
  - simpl. rewrite written_by_app, written_by_tagged. reflexivity.
Qed.

Lemma settle_other t st k :
  pending t st -> k <> task_no t ->
  pending t (settle st k) /\
  written_by (task_no t) (stdout (settle st k)) = written_by (task_no t) (stdout st).
Proof.
  intros Hp Hne. unfold settle.
  destruct (find _ _) as [t0|] eqn:E; [|split; [exact Hp|reflexivity]].
  destruct Hp as (Hin & Hlt & Hu). split.
  - split; [|split; [exact Hlt|]]; simpl.
    + apply filter_In. split; [exact Hin|].
      destruct (Nat.eqb_spec (task_no t) k); [congruence|reflexivity].
    + intros t' Ht' Heq. apply filter_In in Ht' as [Ht' _]. apply Hu; assumption.
  - simpl. rewrite written_by_app, written_by_other, app_nil_r by congruence.
    reflexivity.
Qed.

Lemma settle_settled k st k' :
  settled k st ->
  settled k (settle st k') /\ written_by k (stdout (settle st k')) = written_by k (stdout st).
Proof.
  intros (Hlt & Hno). unfold settle.
  destruct (find _ _) as [t0|] eqn:E; [|split; [split; assumption|reflexivity]].
  apply find_some in E as [Hin0 Heq]. apply Nat.eqb_eq in Heq.
  assert (Hk : k' <> k) by (intros ->; exact (Hno t0 Hin0 Heq)).
  split.
  - split; [exact Hlt|]. intros t' Ht'. apply filter_In in Ht' as [Ht' _].
    exact (Hno t' Ht').
  - simpl. rewrite written_by_app, written_by_other, app_nil_r by exact Hk.
    reflexivity.
Qed.

Lemma step_settled w k st ev :
  settled k st ->
  settled k (step w st ev) /\ written_by k (stdout (step w st ev)) = written_by k (stdout st).
Proof.
  intros Hs. unfold step. destruct (exit_code st); [split; [exact Hs|reflexivity]|].
  destruct ev as [chunk|k'].
  - split; [eapply grows_settled; [apply on_data_grows|exact Hs]|].
    apply grows_written_by, on_data_grows.
  - apply settle_settled, Hs.
Qed.

Lemma run_settled w k evs st :
  settled k st ->
  settled k (run w st evs) /\ written_by k (stdout (run w st evs)) = written_by k (stdout st).
Proof.
  revert st; induction evs as [|ev evs IH]; intros st Hs; [split; [exact Hs|reflexivity]|].
  change (run w st (ev :: evs)) with (run w (step w st ev) evs).
  destruct (step_settled w k st ev Hs) as [Hs' Hw'].
  destruct (IH _ Hs') as [Hs'' Hw'']. split; [exact Hs''|congruence].
Qed.

Lemma step_pending w t st ev :
  pending t st ->
  (pending t (step w st ev) /\
   written_by (task_no t) (stdout (step w st ev)) = written_by (task_no t) (stdout st)) \/
  (settled (task_no t) (step w st ev) /\
   written_by (task_no t) (stdout (step w st ev)) =
     written_by (task_no t) (stdout st) ++ reply (task_request t) (task_outcome t)).
Proof.
  intros Hp. unfold step. destruct (exit_code st); [left; split; [exact Hp|reflexivity]|].
  destruct ev as [chunk|k].
  - left. split; [eapply grows_pending; [apply on_data_grows|exact Hp]|].
    apply grows_written_by, on_data_grows.
  - destruct (Nat.eq_dec k (task_no t)) as [->|Hne].
    + right. apply settle_self, Hp.
    + left. apply settle_other; assumption.
Qed.

(** Once the process is still running after a sequence of events that
    contains [Settle k], the callbacks of the pending task [k] have written
    exactly [reply] and nothing else. *)
Lemma run_pending_settle w evs st t :
  pending t st -> In (Settle (task_no t)) evs -> exit_code (run w st evs) = None ->
  settled (task_no t) (run w st evs) /\
  written_by (task_no t) (stdout (run w st evs)) =
    written_by (task_no t) (stdout st) ++ reply (task_request t) (task_outcome t).
Proof.
  revert st; induction evs as [|ev evs IH]; intros st Hp Hin Halive; [destruct Hin|].
  change (run w st (ev :: evs)) with (run w (step w st ev) evs) in *.
  pose proof (run_alive_before _ _ _ Halive) as Hstep.
  assert (Hst : exit_code st = None).
  { revert Hstep. unfold step. destruct (exit_code st) eqn:E; intros Hstep;
      [congruence|reflexivity]. }
  destruct Hin as [Hev|Hin].
  - subst ev. assert (Hs : step w st (Settle (task_no t)) = settle st (task_no t))
      by (unfold step; rewrite Hst; reflexivity).
    rewrite Hs in *. destruct (settle_self t st Hp) as [Hs1 Hw1].
    destruct (run_settled w _ evs _ Hs1) as [Hs2 Hw2].
    split; [exact Hs2|congruence].
  - destruct (step_pending w t st ev Hp) as [[Hp1 Hw1]|[Hs1 Hw1]].
    + destruct (IH _ Hp1 Hin Halive) as [Hs2 Hw2]. split; [exact Hs2|congruence].
    + destruct (run_settled w _ evs _ Hs1) as [Hs2 Hw2]. split; [exact Hs2|congruence].
Qed.

(** Without a [Settle k] event, or before it, task [k] writes nothing new;
    in every case it writes at most [reply]. *)
Lemma run_pending_any w evs st t :
  pending t st ->
  written_by (task_no t) (stdout (run w st evs)) = written_by (task_no t) (stdout st) \/
  written_by (task_no t) (stdout (run w st evs)) =
    written_by (task_no t) (stdout st) ++ reply (task_request t) (task_outcome t).
Proof.
  revert st; induction evs as [|ev evs IH]; intros st Hp; [left; reflexivity|].
  change (run w st (ev :: evs)) with (run w (step w st ev) evs).
  destruct (step_pending w t st ev Hp) as [[Hp1 Hw1]|[Hs1 Hw1]].
  - destruct (IH _ Hp1) as [H|H]; rewrite H, Hw1; [left|right]; reflexivity.
  - right. destruct (run_settled w _ evs _ Hs1) as [_ Hw2]. congruence.
Qed.

(** A request accepted in a well-formed state becomes a pending task with a
    fresh number that has written nothing yet. *)
Lemma on_message_spawns w st request outcome trace :
  wf st -> request <> JNull -> dispatch w request = Settles outcome trace ->
  let t := {| task_no := next_task st; task_request := request; task_outcome := outcome |} in
  pending t (on_message w st request) /\
  written_by (next_task st) (stdout (on_message w st request)) = [].
Proof.
  intros [Hwt Hwo] Hnn Hd t.
  assert (Hm : on_message w st request = spawn st request outcome)
    by (unfold on_message; destruct request; [contradiction| | | | |]; rewrite Hd; reflexivity).
  rewrite Hm. split.
  - split; [|split]; simpl.
    + apply in_or_app. right. left. reflexivity.
    + lia.
    + intros t' Ht' Heq. apply in_app_or in Ht' as [Ht'|[<-|[]]]; [|reflexivity].
      rewrite Forall_forall in Hwt. specialize (Hwt t' Ht'). simpl in Heq. lia.
  - simpl. clear Hm Hwt. induction (stdout st) as [|[tag e] o IH]; [reflexivity|].
    inversion Hwo as [|x l Hx Hl]; subst.
    unfold written_by in *; simpl. unfold tag_below in Hx; simpl in Hx.
    destruct tag as [j|]; [|exact (IH Hl)].
    destruct (Nat.eqb_spec j (next_task st)); [lia|exact (IH Hl)].
Qed.

End LoopFacts.

(** ** Claims about the JSON-RPC loop *)
Module LoopClaims.
Import Framer Js Effects Analyze Server Invariants LoopFacts Scenarios.
Local Open Scope string_scope.

(** C1 (counterexample).  A ping whose [id] member is present but [null]
    is answered by no envelope at all, although it carries an [id]. *)
Lemma null_id_request_gets_no_reply :
  field (ping_request JNull) "id" = Some JNull /\
  written_by 0 (stdout (run world_401 (on_message world_401 initial_state (ping_request JNull))
                            [Settle 0])) = [].
Proof. split; vm_compute; reflexivity. Qed.

(** C1 (amended).  For an inbound envelope whose handler settles, and
    whose [id] is present and not [null], exactly one envelope is written
    for it once it has settled and the process is still running: a result
    envelope with that [id] if the handler resolved, an error envelope with
    that [id] if it rejected.  For an envelope with no [id] or a [null]
    [id], none is ever written, whatever the outcome and the later events. *)
Theorem request_answered_exactly_once w st request outcome trace evs :
  wf st -> request <> JNull -> dispatch w request = Settles outcome trace ->
  let k := next_task st in
  let st' := run w (on_message w st request) evs in
  match request_id request with
  | Some id =>
      In (Settle k) evs -> exit_code st' = None ->
      written_by k (stdout st') =
        match outcome with
        | inl result => [EnvResult id result]
        | inr e => [EnvError id (getErrorCode e) (error_message e) (error_data e)]
        end
  | None => written_by k (stdout st') = []
  end.
Proof.
  intros Hwf Hnn Hd k st'.
  destruct (on_message_spawns w st request outcome trace Hwf Hnn Hd) as [Hp Hw0].
  set (t := {| task_no := next_task st; task_request := request; task_outcome := outcome |}) in Hp.
  unfold st', k.
  destruct (request_id request) as [id|] eqn:Eid.
  - intros Hin Halive.
    destruct (run_pending_settle w evs _ t Hp Hin Halive) as [_ Hw].
    simpl in Hw. rewrite Hw, Hw0. simpl. unfold reply. rewrite Eid. reflexivity.
  - destruct (run_pending_any w evs _ t Hp) as [Hw|Hw]; simpl in Hw; rewrite Hw, Hw0;
      [reflexivity|]. simpl. unfold reply. rewrite Eid. reflexivity.
Qed.

Lemma request_answered_exactly_once_witness :
  written_by 0 (stdout (run world_401 (on_message world_401 initial_state (ping_request (JNum 7)))
                            [Settle 0])) = [EnvResult (JNum 7) (Some (JObj []))].
Proof.
  refine (request_answered_exactly_once world_401 initial_state (ping_request (JNum 7))
            (inl (Some (JObj []))) [] [Settle 0] _ _ _ _ _).
  - split; constructor.
  - discriminate.
  - reflexivity.
  - simpl. left. reflexivity.
  - vm_compute. reflexivity.
Defined.

(** C10.  An envelope whose [id] member is present but [null] is handled
    as a notification: its handler is dispatched (a task is started, or the
    process exits for a [tools/call] without a key), and no envelope,
    neither result nor error, is ever written for it, as for an envelope
    without [id]. *)
Theorem null_id_is_notification w st request evs :
  wf st -> field request "id" = Some JNull ->
  (forall outcome, reply request outcome = []) /\
  match dispatch w request with
  | Settles outcome _ =>
      In {| task_no := next_task st; task_request := request; task_outcome := outcome |}
         (in_flight (on_message w st request)) /\
      written_by (next_task st) (stdout (run w (on_message w st request) evs)) = []
  | Exits code =>
      exit_code (on_message w st request) = Some code /\
      stdout (run w (on_message w st request) evs) = stdout st
  end.
Proof.
  intros Hwf Hid.
  assert (Hnn : request <> JNull) by (intros ->; discriminate).
  assert (Hr : forall outcome, reply request outcome = [])
    by (intros outcome; unfold reply, request_id; rewrite Hid; reflexivity).
  split; [exact Hr|].
  destruct (dispatch w request) as [code|outcome trace] eqn:Hd.
  - assert (Hm : on_message w st request = exit_with st code)
      by (unfold on_message; destruct request; [contradiction| | | | |]; rewrite Hd; reflexivity).
    rewrite Hm. split; [reflexivity|]. rewrite (run_exited w _ evs code); reflexivity.
  - destruct (on_message_spawns w st request outcome trace Hwf Hnn Hd) as [Hp Hw0].
    split; [exact (proj1 Hp)|].
    set (t := {| task_no := next_task st; task_request := request; task_outcome := outcome |}) in Hp.
    destruct (run_pending_any w evs _ t Hp) as [Hw|Hw]; simpl in Hw; rewrite Hw, Hw0;
      [reflexivity|]. rewrite Hr. reflexivity.
Qed.

Lemma null_id_is_notification_witness :
  (forall outcome, reply (ping_request JNull) outcome = []) /\
  In {| task_no := 0; task_request := ping_request JNull; task_outcome := inl (Some (JObj [])) |}
     (in_flight (on_message world_401 initial_state (ping_request JNull))) /\
  written_by 0 (stdout (run world_401 (on_message world_401 initial_state (ping_request JNull))
                            [Settle 0])) = [].
Proof.
  exact (null_id_is_notification world_401 initial_state (ping_request JNull) [Settle 0]
           (conj (Forall_nil _) (Forall_nil _)) eq_refl).
Defined.

(** C6.  A line that [JSON.parse] rejects leaves the process running, adds
    exactly one output line, the envelope [{id: null, error: {code:
    'ParseError', ...}}], and the following lines are then processed from
    that state. *)
Theorem malformed_line_gets_parse_error w st line lines :
  exit_code st = None -> json_parse w (string_of_list_ascii line) = None ->
  on_line w st line = write st None [EnvError JNull "ParseError" "Invalid JSON-RPC message" None] /\
  exit_code (on_line w st line) = None /\
  fold_left (on_line w) (line :: lines) st =
    fold_left (on_line w) lines
      (write st None [EnvError JNull "ParseError" "Invalid JSON-RPC message" None]).
Proof.
  intros Hst Hp.
  assert (H : on_line w st line =
              write st None [EnvError JNull "ParseError" "Invalid JSON-RPC message" None])
    by (unfold on_line; rewrite Hst, Hp; reflexivity).
  split; [exact H|split].
  - rewrite H. exact Hst.
  - simpl. rewrite H. reflexivity.
Qed.

Lemma malformed_line_gets_parse_error_witness :
  on_line world_401 initial_state (list_ascii_of_string "{oops") =
    write initial_state None [EnvError JNull "ParseError" "Invalid JSON-RPC message" None].
Proof.
  exact (proj1 (malformed_line_gets_parse_error world_401 initial_state
                  (list_ascii_of_string "{oops") [] eq_refl eq_refl)).
Defined.

(** C4.  A [tools/call] dispatched while [OPENAI_API_KEY] is unset (or
    empty) makes the process exit with code 0 inside [checkOpenaiKey]: no
    line is written for it, no task is started, and nothing is written or
    processed afterwards. *)
Theorem missing_key_exits_before_reply w st request evs :
  OPENAI_API_KEY w = None \/ OPENAI_API_KEY w = Some "" ->
  field request "method" = Some (JStr "tools/call") ->
  let st' := on_message w st request in
  exit_code st' = Some 0%Z /\ stdout st' = stdout st /\ in_flight st' = in_flight st /\
  run w st' evs = st'.
Proof.
  intros Hkey Hm st'.
  assert (Hc : checkOpenaiKey w = Some 0%Z)
    by (unfold checkOpenaiKey; destruct Hkey as [-> | ->]; reflexivity).
  assert (Hd : dispatch w request = Exits 0)
    by (unfold dispatch, handleRequest; rewrite Hm; simpl; unfold tools_call; rewrite Hc;
        reflexivity).
  assert (Hst : st' = exit_with st 0).
  { unfold st', on_message. destruct request; try discriminate Hm; rewrite Hd; reflexivity. }
  rewrite Hst. split; [reflexivity|split; [reflexivity|split; [reflexivity|]]].
  apply run_exited with (c := 0%Z). reflexivity.
Qed.

Lemma missing_key_exits_before_reply_witness :
  exit_code (on_message world_no_key initial_state (call_request (JNum 1) screenshot_args))
    = Some 0%Z.
Proof.
  exact (proj1 (missing_key_exits_before_reply world_no_key initial_state
                  (call_request (JNum 1) screenshot_args) [] (or_introl eq_refl) eq_refl)).
Defined.

(** C3 (evaluation at the failing input).  A [tools/call] request with
    id 1 and an absolute path, sent while [OPENAI_API_KEY] is unset, ends
    the process with code 0 and no envelope is ever written: the
    [MissingApiKey] error that [checkOpenaiKey] throws after
    [process.emit("SIGINT")] never reaches the client. *)
Theorem missing_key_call_gets_no_error_reply :
  let st := on_message world_no_key initial_state (call_request (JNum 1) screenshot_args) in
  exit_code st = Some 0%Z /\ stdout (run world_no_key st [Settle 0]) = [] /\
  checkOpenaiKey world_no_key = Some sigint_exit_code.
Proof. vm_compute. repeat split. Qed.

End LoopClaims.

(** ** Facts about the [tools/call] pipeline *)
Module AnalyzeFacts.
Import Js Effects Analyze Server.
Local Open Scope string_scope.

Lemma bind_nil_inl {A B} (a : A) (k : A -> M B) : bind ([], inl a) k = k a.
Proof. unfold bind. destruct (k a); reflexivity. Qed.

Lemma bind_inl {A B} tr (a : A) (k : A -> M B) :
  bind (tr, inl a) k = ((tr ++ fst (k a))%list, snd (k a)).
Proof. unfold bind. destruct (k a); reflexivity. Qed.

Lemma bind_inr {A B} tr e (k : A -> M B) : bind (tr, inr e) k = (tr, inr e).
Proof. reflexivity. Qed.

Lemma get_throws_type_error v k e :
  get v k = inr e -> exists m, e = JsError "TypeError" m.
Proof.
  destruct v as [[]|]; simpl; intros H; try discriminate;
    injection H as <-; eexists; reflexivity.
Qed.

Lemma image_path_value_throws params e :
  image_path_value params = inr e -> exists m, e = JsError "TypeError" m.
Proof.
  unfold image_path_value.
  destruct (get (Some params) "arguments") as [args|e'] eqn:E.
  - apply get_throws_type_error.
  - intros H. injection H as ->. exact (get_throws_type_error _ _ _ E).
Qed.

Lemma tool_attempt_path_error w params e :
  image_path_value params = inr e -> tool_attempt w params = ([], inr e).
Proof.
  unfold image_path_value, tool_attempt, lift.
  destruct (get (Some params) "arguments") as [args|e'].
  - intros H. rewrite bind_nil_inl, H. reflexivity.
  - intros H. injection H as ->. reflexivity.
Qed.

Lemma tool_attempt_path w params ip :
  image_path_value params = inl ip ->
  exists question model, tool_attempt w params = analyzeImage w ip question model.
Proof.
  unfold image_path_value, tool_attempt, lift.
  destruct (get (Some params) "arguments") as [args|e]; [|discriminate].
  intros H. rewrite bind_nil_inl, H, bind_nil_inl.
  destruct args as [[]|]; simpl in H; try discriminate; cbn [get];
    rewrite ?bind_nil_inl; eexists _, _; reflexivity.
Qed.

Lemma dispatch_tools_call w request :
  field request "method" = Some (JStr "tools/call") ->
  dispatch w request = tools_call w (request_params request).
Proof. intros H. unfold dispatch, handleRequest. rewrite H. reflexivity. Qed.

(** Outcome of the handler in terms of the [try] block. *)
Lemma tools_call_attempt w params :
  checkOpenaiKey w = None ->
  field params "name" = Some (JStr "analyze_image") ->
  tools_call w params =
    match snd (tool_attempt w params) with
    | inl result => Settles (inl (Some (text_content result false))) (fst (tool_attempt w params))
    | inr (McpError code message) =>
        Settles (inr (McpError code message)) (fst (tool_attempt w params))
    | inr (JsError _ message) =>
        Settles (inl (Some (text_content (Some (JStr ("Error analyzing image: " ++ message))) true)))
                (fst (tool_attempt w params))
    end.
Proof.
  intros Hk Hn. unfold tools_call. rewrite Hk, Hn.
  destruct (tool_attempt w params) as [tr [r|[c m|n m]]]; reflexivity.
Qed.

Lemma post_and_extract_fetch w key body :
  exists rest, fst (post_and_extract w key body) = (Fetch key body :: rest)%list.
Proof.
  unfold post_and_extract, perform. rewrite bind_inl. eexists. reflexivity.
Qed.

End AnalyzeFacts.

(** ** Claims about [tools/call] and [analyzeImage] *)
Module ToolClaims.
Import Js Effects Analyze Server AnalyzeFacts Scenarios.
Local Open Scope string_scope.

(** C2.  For a [tools/call] request with an [id] (key configured, tool
    [analyze_image]): a failure of the pipeline that is not an [McpError]
    (file read, decoding, HTTP status, malformed provider response, ...)
    resolves the handler with [{content: [{type: 'text', text: 'Error
    analyzing image: ' + message}], isError: true}], answered by a result
    envelope; an [McpError] is rethrown and answered by an error envelope
    with its own code; and a non-2xx HTTP response fails with a message
    that contains the status text. *)
Theorem tool_failures_are_tool_results w request id :
  field request "method" = Some (JStr "tools/call") ->
  request_id request = Some id ->
  checkOpenaiKey w = None ->
  field (request_params request) "name" = Some (JStr "analyze_image") ->
  (forall name message,
     snd (tool_attempt w (request_params request)) = inr (JsError name message) ->
     exists trace,
       dispatch w request =
         Settles (inl (Some (text_content (Some (JStr ("Error analyzing image: " ++ message))) true)))
                 trace /\
       reply request (inl (Some (text_content (Some (JStr ("Error analyzing image: " ++ message))) true)))
         = [EnvResult id (Some (text_content (Some (JStr ("Error analyzing image: " ++ message))) true))]) /\
  (forall code message,
     snd (tool_attempt w (request_params request)) = inr (McpError code message) ->
     exists trace,
       dispatch w request = Settles (inr (McpError code message)) trace /\
       reply request (inr (McpError code message)) = [EnvError id code message None]) /\
  (forall key body r,
     fetch w key body = inl r -> response_ok r = false ->
     exists pre post,
       snd (post_and_extract w key body) = inr (JsError "Error" (pre ++ statusText r ++ post))).
Proof.
  intros Hm Hid Hk Hn.
  rewrite (dispatch_tools_call w request Hm), (tools_call_attempt w _ Hk Hn).
  split; [|split].
  - intros name message H. rewrite H. eexists. split; [reflexivity|].
    unfold reply. rewrite Hid. reflexivity.
  - intros code message H. rewrite H. eexists. split; [reflexivity|].
    unfold reply. rewrite Hid. reflexivity.
  - intros key body r Hf Hok.
    unfold post_and_extract, perform, lift. rewrite bind_inl, Hf, bind_nil_inl, Hok.
    simpl. eexists "OpenAI API error: ", _. reflexivity.
Qed.

Lemma tool_failures_are_tool_results_witness :
  exists trace,
    dispatch world_401 (call_request (JNum 3) screenshot_args) =
      Settles (inl (Some (text_content (Some (JStr ("Error analyzing image: " ++ unauthorized_message)))
                                       true))) trace /\
    reply (call_request (JNum 3) screenshot_args)
          (inl (Some (text_content (Some (JStr ("Error analyzing image: " ++ unauthorized_message))) true)))
      = [EnvResult (JNum 3)
                   (Some (text_content (Some (JStr ("Error analyzing image: " ++ unauthorized_message))) true))].
Proof.
  refine (proj1 (tool_failures_are_tool_results world_401 (call_request (JNum 3) screenshot_args)
                   (JNum 3) _ _ _ _) "Error" unauthorized_message _).
  - reflexivity.
  - reflexivity.
  - reflexivity.
  - reflexivity.
  - vm_compute. reflexivity.
Defined.

(** C5 (counterexample).  With the key set, a [tools/call] whose
    arguments have no [image_path] is not rejected with [InvalidParams]:
    [path.isAbsolute(undefined)] throws a [TypeError], and the handler
    resolves with an [isError] tool result. *)
Lemma missing_image_path_is_tool_result :
  dispatch world_401 (call_request (JNum 5) (JObj [])) =
    Settles (inl (Some (text_content
                          (Some (JStr "Error analyzing image: The path argument must be of type string"))
                          true))) [].
Proof. vm_compute. reflexivity. Qed.

(** C5 (amended).  For a [tools/call] (key configured, tool
    [analyze_image]): a string [image_path] that is not absolute is
    rejected with [InvalidParams], answered by an error envelope, with no
    effect performed, so the file system is never touched; a missing or
    non-string [image_path] (or missing [arguments]) is answered by an
    [isError] tool result, also with no effect performed. *)
Theorem image_path_validated_before_io w request id :
  field request "method" = Some (JStr "tools/call") ->
  request_id request = Some id ->
  checkOpenaiKey w = None ->
  field (request_params request) "name" = Some (JStr "analyze_image") ->
  (forall p,
     image_path_value (request_params request) = inl (Some (JStr p)) -> isAbsolute p = false ->
     dispatch w request = Settles (inr (McpError "InvalidParams" "Image path must be absolute")) [] /\
     reply request (inr (McpError "InvalidParams" "Image path must be absolute")) =
       [EnvError id "InvalidParams" "Image path must be absolute" None]) /\
  ((forall p, image_path_value (request_params request) <> inl (Some (JStr p))) ->
     exists message,
       dispatch w request =
         Settles (inl (Some (text_content (Some (JStr ("Error analyzing image: " ++ message))) true))) []).
Proof.
  intros Hm Hid Hk Hn.
  rewrite (dispatch_tools_call w request Hm), (tools_call_attempt w _ Hk Hn).
  split.
  - intros p Hp Habs.
    destruct (tool_attempt_path w _ _ Hp) as (q & model & Ht).
    rewrite Ht. unfold analyzeImage. rewrite Habs. simpl.
    split; [reflexivity|]. unfold reply. rewrite Hid. reflexivity.
  - intros Hnot.
    destruct (image_path_value (request_params request)) as [ip|e] eqn:Ev.
    + destruct (tool_attempt_path w _ _ Ev) as (q & model & Ht). rewrite Ht.
      destruct ip as [[]|]; try (exfalso; eapply Hnot; reflexivity);
        eexists; reflexivity.
    + rewrite (tool_attempt_path_error w _ _ Ev).
      destruct (image_path_value_throws _ _ Ev) as [m ->].
      eexists; reflexivity.
Qed.

Lemma image_path_validated_before_io_witness :
  dispatch world_401 (call_request (JNum 4) (JObj [("image_path", JStr "shot.png")])) =
    Settles (inr (McpError "InvalidParams" "Image path must be absolute")) [].
Proof.
  refine (proj1 ((proj1 (image_path_validated_before_io world_401
                            (call_request (JNum 4) (JObj [("image_path", JStr "shot.png")]))
                            (JNum 4) _ _ _ _)) "shot.png" _ _)).
  all: reflexivity.
Defined.

(** C8.  For an image read from disk and probed by sharp, with a
    positive width [W] and height [H]: exactly one sharp pipeline runs, it
    re-encodes to JPEG at quality [JPEG_QUALITY] (85), and its output is
    what gets base64-encoded, including for images already within the
    bound; when [max(W, H) > MAX_DIMENSION] (1024) it resizes
    proportionally so that the larger side becomes 1024, otherwise it
    keeps [W] x [H]. *)
Theorem preprocessing_bounds_and_reencodes w path img md W H :
  read_file w path = inl img -> sharp_metadata w img = inl md ->
  width md = Some W -> height md = Some H -> (0 < W)%Z -> (0 < H)%Z ->
  exists op,
    fst (prepare_image w path) = [ReadFile path; Sharp op] /\
    snd (prepare_image w path) =
      match sharp_run w img op with inl out => inl (base64 out) | inr e => inr e end /\
    op_quality op = JPEG_QUALITY /\
    ((MAX_DIMENSION < Z.max W H)%Z ->
       Z.max (fst (output_dims W H op)) (snd (output_dims W H op)) = MAX_DIMENSION) /\
    ((Z.max W H <= MAX_DIMENSION)%Z -> output_dims W H op = (W, H)).
Proof.
  intros Hr Hmd Hw Hh HW HH.
  assert (Hpre : prepare_image w path =
     let m := (resizedBuffer <-
                 match reencode_plan MAX_DIMENSION JPEG_QUALITY md with
                 | Some op => _ <- perform (Sharp op) ;; lift (sharp_run w img op)
                 | None => ret img
                 end ;;
               ret (base64 resizedBuffer)) in
     ((ReadFile path :: fst m)%list, snd m)).
  { unfold prepare_image. unfold perform at 1. rewrite bind_inl.
    unfold lift. rewrite Hr, !bind_nil_inl, Hmd, !bind_nil_inl. reflexivity. }
  rewrite Hpre. clear Hpre.
  unfold reencode_plan. rewrite Hw, Hh.
  replace (W =? 0)%Z with false by (symmetry; apply Z.eqb_neq; lia).
  replace (H =? 0)%Z with false by (symmetry; apply Z.eqb_neq; lia).
  cbn [negb andb]. rewrite Z.gtb_ltb.
  destruct (Z.ltb_spec MAX_DIMENSION (Z.max W H)) as [Hgt|Hle].
  - set (r := if (W >? H)%Z then ResizeWidth MAX_DIMENSION else ResizeHeight MAX_DIMENSION).
    exists (ResizeJpeg r JPEG_QUALITY).
    destruct (sharp_run w img (ResizeJpeg r JPEG_QUALITY)) as [out|e] eqn:Es;
      (split; [reflexivity|split; [reflexivity|split; [reflexivity|]]]);
      (split; [intros _|intros Hle; lia]);
      unfold r; rewrite Z.gtb_ltb; unfold MAX_DIMENSION in *;
      destruct (Z.ltb_spec H W) as [Hlt|Hge]; cbn [output_dims fst snd].
    all: first
      [ assert ((2 * H * 1024 + W) / (2 * W) < 1025)%Z
          by (apply Z.div_lt_upper_bound; nia); apply Z.max_l; lia
      | assert ((2 * W * 1024 + H) / (2 * H) < 1025)%Z
          by (apply Z.div_lt_upper_bound; nia); apply Z.max_r; lia ].
  - exists (JpegOnly JPEG_QUALITY).
    destruct (sharp_run w img (JpegOnly JPEG_QUALITY)) as [out|e] eqn:Es;
      (split; [reflexivity|split; [reflexivity|split; [reflexivity|]]]);
      (split; [intros Hgt; lia|intros _; reflexivity]).
Qed.

Lemma preprocessing_bounds_and_reencodes_witness :
  exists op,
    fst (prepare_image world_401 "/tmp/shot.png") = [ReadFile "/tmp/shot.png"; Sharp op] /\
    snd (prepare_image world_401 "/tmp/shot.png") =
      match sharp_run world_401 png_bytes op with inl out => inl (base64 out) | inr e => inr e end /\
    op_quality op = JPEG_QUALITY /\
    ((MAX_DIMENSION < Z.max 2048 1536)%Z ->
       Z.max (fst (output_dims 2048 1536 op)) (snd (output_dims 2048 1536 op)) = MAX_DIMENSION) /\
    ((Z.max 2048 1536 <= MAX_DIMENSION)%Z -> output_dims 2048 1536 op = (2048%Z, 1536%Z)).
Proof.
  apply (preprocessing_bounds_and_reencodes world_401 "/tmp/shot.png" png_bytes
           {| width := Some 2048%Z; height := Some 1536%Z |} 2048%Z 1536%Z);
    try reflexivity; lia.
Defined.

(** C9 (counterexample): the model is chosen with [||], so an empty
    [model] argument is skipped and the [OPENAI_MODEL] value is used. *)
Lemma empty_model_argument_falls_through :
  selectModel world_env_model (Some (JStr "")) = JStr "gpt-4o".
Proof. reflexivity. Qed.

(** C9 (amended): the model is the [model] argument when it is truthy
    (present and not empty), otherwise [OPENAI_MODEL] when set and not
    empty, otherwise "gpt-4.1".  Once the image is prepared with a key
    configured, an unknown model only adds a [Warn] effect: the call goes
    on to the provider request, whose first effect is the [Fetch] with the
    chosen model in its body, and its outcome is that of the request. *)
Theorem model_resolution_never_blocks w key path question model tr b64 :
  OPENAI_API_KEY w = Some key -> key <> "" -> isAbsolute path = true ->
  prepare_image w path = (tr, inl b64) ->
  let m := selectModel w model in
  let body := request_body m question b64 in
  m = (if truthy model then match model with Some v => v | None => JNull end
       else match OPENAI_MODEL w with
            | Some s => if String.eqb s "" then JStr "gpt-4.1" else JStr s
            | None => JStr "gpt-4.1"
            end) /\
  analyzeImage w (Some (JStr path)) question model =
    ((tr ++ (if is_valid_model m then [] else [Warn m]) ++
      fst (post_and_extract w key body))%list,
     snd (post_and_extract w key body)) /\
  exists rest, fst (post_and_extract w key body) = (Fetch key body :: rest)%list.
Proof.
  intros Hk Hne Habs Hp m body. split; [|split].
  - unfold m, selectModel, js_or_value, js_or.
    destruct (truthy model) eqn:Et.
    + destruct model as [v|]; [rewrite Et; reflexivity|discriminate].
    + destruct (OPENAI_MODEL w) as [s|]; cbn [option_map truthy];
        [destruct (String.eqb s "")|]; reflexivity.
  - unfold analyzeImage. rewrite Habs, Hp. cbn [negb]. rewrite bind_inl, Hk.
    destruct (String.eqb key "") eqn:E;
      [apply String.eqb_eq in E; contradiction|].
    unfold check_model. fold m.
    destruct (is_valid_model m); unfold perform, ret;
      rewrite ?bind_nil_inl, ?bind_inl; cbn [fst snd app];
      rewrite ?bind_inl; reflexivity.
  - apply post_and_extract_fetch.
Qed.

Lemma model_resolution_never_blocks_witness :
  let m := selectModel world_env_model None in
  let body := request_body m None (base64 png_bytes) in
  m = (if truthy None then JNull
       else match OPENAI_MODEL world_env_model with
            | Some s => if String.eqb s "" then JStr "gpt-4.1" else JStr s
            | None => JStr "gpt-4.1"
            end) /\
  analyzeImage world_env_model (Some (JStr "/tmp/shot.png")) None None =
    (([ReadFile "/tmp/shot.png"; Sharp (ResizeJpeg (ResizeWidth MAX_DIMENSION) JPEG_QUALITY)] ++
      (if is_valid_model m then [] else [Warn m]) ++
      fst (post_and_extract world_env_model "sk-test" body))%list,
     snd (post_and_extract world_env_model "sk-test" body)) /\
  exists rest, fst (post_and_extract world_env_model "sk-test" body) =
                 (Fetch "sk-test" body :: rest)%list.
Proof.
  apply (model_resolution_never_blocks world_env_model "sk-test" "/tmp/shot.png" None None
           [ReadFile "/tmp/shot.png"; Sharp (ResizeJpeg (ResizeWidth MAX_DIMENSION) JPEG_QUALITY)]
           (base64 png_bytes)).
  - reflexivity.
  - discriminate.
  - reflexivity.
  - vm_compute. reflexivity.
Defined.

End ToolClaims.

(** ** Base64 encoding *)
Module Base64Facts.
Import Js Effects Analyze Base64Decode Scenarios.

Lemma digits_ok : forallb (fun i => digit_ok (N.of_nat i)) (seq 0 64) = true.
Proof. vm_compute. reflexivity. Qed.

Lemma b64_digit_mod x : b64_digit x = b64_digit (x mod 64).
Proof. unfold b64_digit. rewrite N.Div0.mod_mod. reflexivity. Qed.

Lemma digit_ok_mod x : digit_ok (x mod 64) = true.
Proof.
  pose proof (N.mod_lt x 64 ltac:(lia)) as H.
  pose proof digits_ok as Hall. rewrite forallb_forall in Hall.
  specialize (Hall (N.to_nat (x mod 64))).
  rewrite N2Nat.id in Hall. apply Hall, in_seq.
  rewrite N2Nat.inj_mod. change (N.to_nat 64) with 64.
  pose proof (Nat.mod_upper_bound (N.to_nat x) 64 ltac:(lia)). lia.
Qed.

Lemma b64_digit_char x :
  b64_digit x = String (b64_char x) EmptyString /\
  b64_value (b64_char x) = Some (x mod 64)%N /\ b64_char x <> "="%char.
Proof.
  pose proof (digit_ok_mod x) as H. unfold b64_char. rewrite (b64_digit_mod x).
  unfold digit_ok in H.
  destruct (b64_digit (x mod 64)) as [|c [|]]; try discriminate.
  destruct (b64_value c) as [j|]; [|discriminate].
  apply andb_prop in H as [Hj Hc]. apply N.eqb_eq in Hj. subst j.
  split; [reflexivity|split; [reflexivity|]].
  intros ->. discriminate.
Qed.

Lemma regroup3 n : (n < 16777216)%N ->
  ((n / 262144) mod 64 * 262144 + (n / 4096) mod 64 * 4096 + (n / 64) mod 64 * 64 + n mod 64 = n)%N.
Proof.
  intros Hn.
  pose proof (N.div_mod n 64 ltac:(lia)) as E1.
  pose proof (N.div_mod (n / 64) 64 ltac:(lia)) as E2.
  pose proof (N.div_mod (n / 4096) 64 ltac:(lia)) as E3.
  rewrite N.Div0.div_div in E2, E3.
  change (64 * 64)%N with 4096%N in E2. change (4096 * 64)%N with 262144%N in E3.
  assert (n / 262144 < 64)%N by (apply N.Div0.div_lt_upper_bound; lia).
  rewrite (N.mod_small (n / 262144) 64) by lia. lia.
Qed.

Lemma list3_ind {A} (P : list A -> Prop) :
  P [] -> (forall a, P [a]) -> (forall a b, P [a; b]) ->
  (forall a b c r, P r -> P (a :: b :: c :: r)) -> forall l, P l.
Proof.
  intros H0 H1 H2 H3. fix IH 1.
  intros [|a [|b [|c r]]]; [exact H0|apply H1|apply H2|apply H3, IH].
Qed.

Lemma split3 a b c : (a < 256 -> b < 256 -> c < 256 ->
  let n := a * 65536 + b * 256 + c in
  n / 65536 = a /\ (n / 256) mod 256 = b /\ n mod 256 = c)%N.
Proof.
  intros Ha Hb Hc n.
  assert (Hd : (n / 256 = a * 256 + b)%N) by (symmetry; apply (N.div_unique _ _ _ c); lia).
  split; [symmetry; apply (N.div_unique _ _ _ (b * 256 + c)); lia|split].
  - rewrite Hd. symmetry; apply (N.mod_unique _ _ a); lia.
  - symmetry; apply (N.mod_unique _ _ (a * 256 + b)); lia.
Qed.

Lemma mod64_mul256 m : ((m * 256) mod 64 = 0)%N.
Proof. replace (m * 256)%N with (m * 4 * 64)%N by lia. apply N.Div0.mod_mul. Qed.

Lemma div64_mod_mul65536 m : (((m * 65536) / 64) mod 64 = 0)%N.
Proof.
  replace (m * 65536)%N with (m * 1024 * 64)%N by lia.
  rewrite N.div_mul by lia.
  replace (m * 1024)%N with (m * 16 * 64)%N by lia. apply N.Div0.mod_mul.
Qed.

Lemma base64_decode bs : decode (base64 bs) = Some bs.
Proof.
  induction bs as [|a|a b|a b c r IH] using list3_ind.
  - reflexivity.
  - pose proof (Byte.to_N_bounded a) as Ha.
    set (n := (Byte.to_N a * 65536)%N).
    cbn [base64]. fold n.
    destruct (b64_digit_char (n / 262144)) as (E1 & V1 & _).
    destruct (b64_digit_char (n / 4096)) as (E2 & V2 & _).
    rewrite E1, E2. cbn [append decode]. rewrite V1, V2. cbn [Ascii.eqb Bool.eqb andb].
    pose proof (regroup3 n ltac:(unfold n; lia)) as G.
    assert (Z0 : ((n / 64) mod 64 = 0)%N) by apply div64_mod_mul65536. rewrite Z0 in G.
    replace (n mod 64)%N with 0%N in G
      by (unfold n; replace (Byte.to_N a * 65536)%N with (Byte.to_N a * 256 * 256)%N by lia;
          symmetry; apply mod64_mul256).
    unfold group. replace ((n / 262144) mod 64 * 262144 + (n / 4096) mod 64 * 4096 + 0 * 64 + 0)%N
      with n by lia.
    destruct (split3 (Byte.to_N a) 0 0 ltac:(lia) ltac:(lia) ltac:(lia)) as (D1 & _).
    replace (Byte.to_N a * 65536 + 0 * 256 + 0)%N with n in D1 by (unfold n; lia).
    rewrite D1, Byte.of_to_N. reflexivity.
  - pose proof (Byte.to_N_bounded a) as Ha. pose proof (Byte.to_N_bounded b) as Hb.
    set (n := (Byte.to_N a * 65536 + Byte.to_N b * 256)%N).
    cbn [base64]. fold n.
    destruct (b64_digit_char (n / 262144)) as (E1 & V1 & _).
    destruct (b64_digit_char (n / 4096)) as (E2 & V2 & _).
    destruct (b64_digit_char (n / 64)) as (E3 & V3 & N3).
    rewrite E1, E2, E3. cbn [append decode]. rewrite V1, V2.
    apply Ascii.eqb_neq in N3. rewrite N3, V3. cbn [Ascii.eqb Bool.eqb andb].
    pose proof (regroup3 n ltac:(unfold n; lia)) as G.
    replace (n mod 64)%N with 0%N in G
      by (unfold n; replace (Byte.to_N a * 65536 + Byte.to_N b * 256)%N
                      with ((Byte.to_N a * 256 + Byte.to_N b) * 256)%N by lia;
          symmetry; apply mod64_mul256).
    unfold group. replace ((n / 262144) mod 64 * 262144 + (n / 4096) mod 64 * 4096 + (n / 64) mod 64 * 64 + 0)%N
      with n by lia.
    destruct (split3 (Byte.to_N a) (Byte.to_N b) 0 ltac:(lia) ltac:(lia) ltac:(lia)) as (D1 & D2 & _).
    replace (Byte.to_N a * 65536 + Byte.to_N b * 256 + 0)%N with n in D1, D2 by (unfold n; lia).
    rewrite D1, D2, !Byte.of_to_N. reflexivity.
  - pose proof (Byte.to_N_bounded a) as Ha. pose proof (Byte.to_N_bounded b) as Hb.
    pose proof (Byte.to_N_bounded c) as Hc.
    set (n := (Byte.to_N a * 65536 + Byte.to_N b * 256 + Byte.to_N c)%N).
    cbn [base64]. fold n.
    destruct (b64_digit_char (n / 262144)) as (E1 & V1 & _).
    destruct (b64_digit_char (n / 4096)) as (E2 & V2 & _).
    destruct (b64_digit_char (n / 64)) as (E3 & V3 & N3).
    destruct (b64_digit_char n) as (E4 & V4 & N4).
    rewrite E1, E2, E3, E4. cbn [append decode]. rewrite V1, V2.
    apply Ascii.eqb_neq in N3, N4. rewrite N3, V3, N4, V4.
    unfold group. rewrite (regroup3 n ltac:(unfold n; lia)).
    destruct (split3 (Byte.to_N a) (Byte.to_N b) (Byte.to_N c) ltac:(lia) ltac:(lia) ltac:(lia))
      as (D1 & D2 & D3).
    fold n in D1, D2, D3.
    rewrite D1, D2, D3, !Byte.of_to_N, IH. reflexivity.
Qed.

(** [buffer.toString('base64')] is injective: two buffers with the same base64 text are equal, so the image sent is determined by the text in the request. *)
Theorem base64_injective a b : base64 a = base64 b -> a = b.
Proof.
  intros H. pose proof (base64_decode a) as Ha. rewrite H, base64_decode in Ha.
  injection Ha as ->. reflexivity.
Qed.

(** The base64 text of [n] bytes has [4 * ceil(n / 3)] characters. *)
Theorem base64_length bs : String.length (base64 bs) = 4 * ((length bs + 2) / 3).
Proof.
  induction bs as [|a|a b|a b c r IH] using list3_ind; cbn [base64].
  - reflexivity.
  - rewrite (proj1 (b64_digit_char _)), (proj1 (b64_digit_char _)). reflexivity.
  - rewrite (proj1 (b64_digit_char _)), (proj1 (b64_digit_char _)),
            (proj1 (b64_digit_char _)). reflexivity.
  - rewrite (proj1 (b64_digit_char _)), (proj1 (b64_digit_char _)),
            (proj1 (b64_digit_char _)), (proj1 (b64_digit_char _)).
    cbn [append String.length length]. rewrite IH.
    replace (S (S (S (length r))) + 2) with (1 * 3 + (length r + 2)) by lia.
    rewrite Nat.div_add_l by lia. lia.
Qed.

Lemma base64_injective_witness :
  base64 png_bytes = base64 png_bytes /\ png_bytes = png_bytes.
Proof.
  split; [reflexivity|].
  apply (base64_injective png_bytes png_bytes). reflexivity.
Defined.

End Base64Facts.

(** ** More on the framer *)
Module FramerExtras.
Import Framer FramerFacts.

Lemma trim_start_snoc_space s c :
  is_js_space c = true ->
  trim_start (s ++ [c]) = match trim_start s with [] => [] | t => t ++ [c] end.
Proof.
  intros Hc. induction s as [|d s IH]; simpl; [rewrite Hc; reflexivity|].
  destruct (is_js_space d); [exact IH|reflexivity].
Qed.

Lemma trim_snoc_space s c : is_js_space c = true -> trim (s ++ [c]) = trim s.
Proof.
  intros Hc. unfold trim. rewrite (trim_start_snoc_space s c Hc).
  destruct (trim_start s) as [|d t]; [reflexivity|].
  rewrite rev_app_distr. simpl. rewrite Hc. reflexivity.
Qed.

Lemma index_of_app_none c s t :
  index_of c s = None -> index_of c (s ++ t) = option_map (Nat.add (length s)) (index_of c t).
Proof.
  induction s as [|d s IH]; simpl; intros H.
  - destruct (index_of c t); reflexivity.
  - destruct (Ascii.eqb d c); [discriminate|].
    destruct (index_of c s); [discriminate|]. rewrite IH by reflexivity.
    destruct (index_of c t); reflexivity.
Qed.

(** A carriage return before the line feed that ends the first line of the input changes nothing: CRLF and LF line ends give the same lines and the same rest. *)
Theorem crlf_line_ends_accepted buffer l more :
  index_of newline (buffer ++ l) = None ->
  feed buffer (l ++ "013"%char :: newline :: more) = feed buffer (l ++ newline :: more).
Proof.
  intros H. unfold feed. rewrite !app_assoc.
  set (s := buffer ++ l) in *.
  rewrite (drain_some (s ++ "013"%char :: newline :: more) (length s + 1)),
          (drain_some (s ++ newline :: more) (length s)).
  - replace (s ++ "013"%char :: newline :: more) with ((s ++ ["013"%char]) ++ newline :: more)
      by (rewrite <- app_assoc; reflexivity).
    rewrite firstn_app, skipn_app, length_app. simpl length.
    rewrite (firstn_all2 (s ++ ["013"%char])) by (rewrite length_app; simpl; lia).
    rewrite (skipn_all2 (s ++ ["013"%char])) by (rewrite length_app; simpl; lia).
    rewrite firstn_app, skipn_app.
    rewrite (firstn_all2 s) by lia. rewrite (skipn_all2 s) by lia.
    replace (length s + 1 - (length s + 1)) with 0 by lia.
    replace (S (length s + 1) - (length s + 1)) with 1 by lia.
    replace (length s - length s) with 0 by lia.
    replace (S (length s) - length s) with 1 by lia.
    rewrite !firstn_O, !app_nil_r, !app_nil_l.
    rewrite (trim_snoc_space s "013"%char) by reflexivity. reflexivity.
  - rewrite index_of_app_none by exact H. cbn. f_equal. lia.
  - rewrite index_of_app_none by exact H. cbn. f_equal.
Qed.

Lemma crlf_line_ends_accepted_witness :
  index_of newline ([] ++ list_ascii_of_string "{}") = None /\
  feed [] (list_ascii_of_string "{}" ++ "013"%char :: newline :: []) =
    feed [] (list_ascii_of_string "{}" ++ newline :: []).
Proof.
  split; [reflexivity|].
  apply (crlf_line_ends_accepted [] (list_ascii_of_string "{}") []). reflexivity.
Defined.

End FramerExtras.

(** ** More on the dispatch table and the loop *)
Module ServerExtras.
Import Framer Js Effects Analyze Server Invariants LoopFacts AnalyzeFacts Scenarios.
Local Open Scope string_scope.

Lemma analyze_image_pattern {A} (s : string) (a b : A) :
  match s with "analyze_image" => a | _ => b end =
  (if String.eqb s "analyze_image" then a else b).
Proof.
  do 13 (destruct s as [|c s]; [reflexivity|];
         destruct c as [[] [] [] [] [] [] [] []]; try reflexivity).
  destruct s; reflexivity.
Qed.


Lemma line_then_settle w st line request outcome trace :
  wf st -> exit_code st = None ->
  json_parse w (string_of_list_ascii line) = Some request -> request <> JNull ->
  dispatch w request = Settles outcome trace ->
  stdout (settle (on_line w st line) (next_task st)) =
    (stdout st ++ map (pair (Some (next_task st))) (reply request outcome))%list.
Proof.
  intros Hwf Hx Hp Hnn Hd.
  assert (Hl : on_line w st line = spawn st request outcome).
  { unfold on_line. rewrite Hx, Hp. unfold on_message.
    destruct request; [contradiction| | | | |]; rewrite Hd; reflexivity. }
  destruct (on_message_spawns w st request outcome trace Hwf Hnn Hd) as [Hpend _].
  assert (Hm : on_message w st request = spawn st request outcome).
  { unfold on_message. destruct request; [contradiction| | | | |]; rewrite Hd; reflexivity. }
  rewrite Hm in Hpend. rewrite Hl.
  pose proof (find_pending _ _ Hpend) as Hf. cbn [task_no] in Hf.
  unfold settle. rewrite Hf. reflexivity.
Qed.

(** A line that parses to an array, a string, a number or a boolean gets no reply: its [method] and [id] read as undefined, the handler rejects, and nothing is written. *)
Theorem non_object_line_gets_no_reply w st line v :
  wf st -> exit_code st = None ->
  json_parse w (string_of_list_ascii line) = Some v ->
  (match v with JObj _ | JNull => False | _ => True end) ->
  stdout (settle (on_line w st line) (next_task st)) = stdout st.
Proof.
  intros Hwf Hx Hp Hv.
  assert (Hd : dispatch w v =
               Settles (inr (McpError "MethodNotFound" "Unknown method: undefined")) [])
    by (destruct v; try contradiction; reflexivity).
  rewrite (line_then_settle w st line v _ _ Hwf Hx Hp ltac:(destruct v; try contradiction; discriminate) Hd).
  assert (Hr : reply v (inr (McpError "MethodNotFound" "Unknown method: undefined")) = [])
    by (destruct v; try contradiction; reflexivity).
  rewrite Hr. apply app_nil_r.
Qed.

(** A request with an id whose method is not one of the five the server knows gets exactly one error envelope, [MethodNotFound] with [Unknown method: <method>] and no data, when it settles. *)
Theorem unknown_method_gets_method_not_found w st line request id :
  wf st -> exit_code st = None ->
  json_parse w (string_of_list_ascii line) = Some request ->
  request_id request = Some id ->
  (forall m, field request "method" = Some (JStr m) ->
     ~ In m ["initialize"; "notifications/initialized"; "tools/list"; "tools/call"; "ping"]) ->
  stdout (settle (on_line w st line) (next_task st)) =
    (stdout st ++
       [(Some (next_task st),
         EnvError id "MethodNotFound"
           ("Unknown method: " ++ js_string_u (field request "method")) None)])%list.
Proof.
  intros Hwf Hx Hp Hid Hm.
  assert (Hd : dispatch w request =
    Settles (inr (McpError "MethodNotFound"
                   ("Unknown method: " ++ js_string_u (field request "method")))) []).
  { unfold dispatch, handleRequest.
    destruct (field request "method") as [[| | |m| |]|] eqn:E; try reflexivity.
    specialize (Hm m eq_refl). cbn [In] in Hm.
    repeat match goal with
           | |- context [String.eqb m ?k] =>
               destruct (String.eqb_spec m k); [subst; tauto|]
           end.
    reflexivity. }
  assert (Hnn : request <> JNull) by (intros ->; discriminate).
  rewrite (line_then_settle w st line request _ _ Hwf Hx Hp Hnn Hd).
  unfold reply. rewrite Hid. reflexivity.
Qed.

(** [notifications/initialized] sent with a non-null id is answered with a result envelope without a [result] member. *)
Theorem initialized_with_id_gets_empty_result w st line request id :
  wf st -> exit_code st = None ->
  json_parse w (string_of_list_ascii line) = Some request ->
  request_id request = Some id ->
  field request "method" = Some (JStr "notifications/initialized") ->
  stdout (settle (on_line w st line) (next_task st)) =
    (stdout st ++ [(Some (next_task st), EnvResult id None)])%list.
Proof.
  intros Hwf Hx Hp Hid Hm.
  assert (Hd : dispatch w request = Settles (inl None) [])
    by (unfold dispatch, handleRequest; rewrite Hm; reflexivity).
  assert (Hnn : request <> JNull) by (intros ->; discriminate).
  rewrite (line_then_settle w st line request _ _ Hwf Hx Hp Hnn Hd).
  unfold reply. rewrite Hid. reflexivity.
Qed.

Lemma bind_not_mcp {A B} (m : M A) (k : A -> M B) :
  not_mcp (snd m) -> (forall a, not_mcp (snd (k a))) -> not_mcp (snd (bind m k)).
Proof.
  destruct m as [tr [a|e]]; intros Hm Hk.
  - rewrite bind_inl. apply Hk.
  - rewrite bind_inr. exact Hm.
Qed.

Lemma get_not_mcp v k : not_mcp (get v k).
Proof. destruct v as [[]|]; exact I. Qed.

Lemma get_index0_not_mcp v : not_mcp (get_index0 v).
Proof. destruct v as [[| | |[]|[]|]|]; exact I. Qed.

Lemma parse_not_mcp w text : not_mcp (parse_or_throw w text).
Proof. unfold parse_or_throw. destruct (json_parse w text); exact I. Qed.


Lemma prepare_not_mcp w path : js_errors_only w -> not_mcp (snd (prepare_image w path)).
Proof.
  intros (Hr & Hm & Hs & _). unfold prepare_image.
  apply bind_not_mcp; [exact I|intros _].
  apply bind_not_mcp; [apply Hr|intros img].
  apply bind_not_mcp; [apply Hm|intros md].
  apply bind_not_mcp; [|intros out; exact I].
  destruct (reencode_plan MAX_DIMENSION JPEG_QUALITY md) as [op|]; [|exact I].
  apply bind_not_mcp; [exact I|intros _]. apply Hs.
Qed.

Lemma post_not_mcp w key body : js_errors_only w -> not_mcp (snd (post_and_extract w key body)).
Proof.
  intros (_ & _ & _ & Hf). unfold post_and_extract.
  apply bind_not_mcp; [exact I|intros _].
  apply bind_not_mcp; [apply Hf|intros r].
  destruct (negb (response_ok r)); [exact I|].
  apply bind_not_mcp; [apply parse_not_mcp|intros analysis].
  apply bind_not_mcp; [apply get_not_mcp|intros choices].
  apply bind_not_mcp; [apply get_index0_not_mcp|intros choice].
  apply bind_not_mcp; [apply get_not_mcp|intros message].
  apply get_not_mcp.
Qed.

Lemma analyze_mcp w p q m c msg :
  js_errors_only w -> snd (analyzeImage w p q m) = inr (McpError c msg) ->
  c = "InvalidParams" \/ c = "MissingApiKey".
Proof.
  intros Hw. unfold analyzeImage.
  destruct p as [[| | |path| |]|]; try discriminate.
  destruct (negb (isAbsolute path)).
  - intros H. injection H as <- _. left. reflexivity.
  - pose proof (prepare_not_mcp w path Hw) as Hp.
    destruct (prepare_image w path) as [tr [b64|e]].
    + rewrite bind_inl. cbn [snd].
      destruct (OPENAI_API_KEY w) as [key|];
        [destruct (String.eqb key "")|];
        try (intros H; injection H as <- _; right; reflexivity).
      unfold check_model.
      destruct (is_valid_model (selectModel w m)); unfold ret, perform;
        rewrite ?bind_nil_inl, ?bind_inl; cbn [snd];
        rewrite ?bind_inl; cbn [snd]; rewrite ?bind_nil_inl;
        intros H; pose proof (post_not_mcp w key (request_body (selectModel w m) q b64) Hw) as Hpo;
        rewrite H in Hpo; destruct Hpo.
    + cbn [bind snd]. intros H. injection H as ->. exact (match Hp with end).
Qed.


Lemma bind_snd_inr {A B} (m : M A) (k : A -> M B) x :
  snd (bind m k) = inr x -> snd m = inr x \/ exists a, snd m = inl a /\ snd (k a) = inr x.
Proof.
  destruct m as [tr [a|e]].
  - rewrite bind_inl. intros H. right. exists a. split; [reflexivity|exact H].
  - rewrite bind_inr. intros H. left. cbn [snd] in H |- *. congruence.
Qed.

Lemma lift_get_not_mcp v k c msg : snd (lift (get v k)) <> inr (McpError c msg).
Proof. pose proof (get_not_mcp v k) as H. unfold lift. cbn [snd]. intros E. rewrite E in H. exact H. Qed.

Lemma tool_attempt_mcp w params c msg :
  js_errors_only w -> snd (tool_attempt w params) = inr (McpError c msg) ->
  c = "InvalidParams" \/ c = "MissingApiKey".
Proof.
  intros Hw H. unfold tool_attempt in H.
  apply bind_snd_inr in H as [H|(args & _ & H)]; [destruct (lift_get_not_mcp _ _ _ _ H)|].
  apply bind_snd_inr in H as [H|(ip & _ & H)]; [destruct (lift_get_not_mcp _ _ _ _ H)|].
  apply bind_snd_inr in H as [H|(q & _ & H)]; [destruct (lift_get_not_mcp _ _ _ _ H)|].
  apply bind_snd_inr in H as [H|(m & _ & H)]; [destruct (lift_get_not_mcp _ _ _ _ H)|].
  exact (analyze_mcp w ip q m c msg Hw H).
Qed.

Lemma handleRequest_cases w method params :
  handleRequest w method params =
    Settles (inr (McpError "MethodNotFound" ("Unknown method: " ++ js_string_u method))) [] \/
  (method = Some (JStr "tools/call") /\ handleRequest w method params = tools_call w params) \/
  exists r, handleRequest w method params = Settles (inl r) [].
Proof.
  unfold handleRequest.
  destruct method as [[| | |m| |]|]; try (left; reflexivity).
  destruct (String.eqb m "initialize"); [right; right; eexists; reflexivity|].
  destruct (String.eqb m "notifications/initialized"); [right; right; eexists; reflexivity|].
  destruct (String.eqb m "tools/list"); [right; right; eexists; reflexivity|].
  destruct (String.eqb_spec m "tools/call"); [subst; right; left; split; reflexivity|].
  destruct (String.eqb m "ping"); [right; right; eexists; reflexivity|].
  left; reflexivity.
Qed.

Lemma tools_call_cases w params :
  (exists code, tools_call w params = Exits code) \/
  tools_call w params =
    Settles (inr (McpError "MethodNotFound" ("Unknown tool: " ++ js_string_u (field params "name")))) [] \/
  (checkOpenaiKey w = None /\ field params "name" = Some (JStr "analyze_image")).
Proof.
  unfold tools_call.
  destruct (checkOpenaiKey w) as [code|]; [left; exists code; reflexivity|right].
  destruct (field params "name") as [[| | |s| |]|] eqn:En; try (left; reflexivity).
  rewrite analyze_image_pattern.
  destruct (String.eqb_spec s "analyze_image"); [subst; right; split; reflexivity|left; reflexivity].
Qed.

(** When the file system, sharp and the HTTP client throw no [McpError], every rejection of a handler is an [McpError] with code [MethodNotFound], [InvalidParams] or [MissingApiKey], and its reply is an error envelope with that code and message and no data. *)
Theorem rejections_are_protocol_errors w request e trace :
  js_errors_only w -> dispatch w request = Settles (inr e) trace ->
  exists code message,
    e = McpError code message /\
    In code ["MethodNotFound"; "InvalidParams"; "MissingApiKey"] /\
    forall id, request_id request = Some id ->
               reply request (inr e) = [EnvError id code message None].
Proof.
  intros Hw Hd.
  assert (He : exists code message, e = McpError code message /\
                 In code ["MethodNotFound"; "InvalidParams"; "MissingApiKey"]).
  { unfold dispatch in Hd.
    destruct (handleRequest_cases w (field request "method") (request_params request))
      as [H|[[_ H]|[r H]]]; rewrite H in Hd; [| |discriminate].
    - injection Hd as <- _. do 2 eexists. split; [reflexivity|left; reflexivity].
    - destruct (tools_call_cases w (request_params request)) as [[code Hc]|[Hc|[Hk Hn]]];
        rewrite ?Hc in Hd; [discriminate| |].
      + injection Hd as <- _. do 2 eexists. split; [reflexivity|left; reflexivity].
      + rewrite (tools_call_attempt w _ Hk Hn) in Hd.
        destruct (tool_attempt w (request_params request)) as [tr [res|[c msg|n msg]]] eqn:Et;
          cbn [snd fst] in Hd; try discriminate.
        injection Hd as <- _. exists c, msg. split; [reflexivity|].
        assert (Hs : snd (tool_attempt w (request_params request)) = inr (McpError c msg))
          by (rewrite Et; reflexivity).
        destruct (tool_attempt_mcp w _ c msg Hw Hs) as [->| ->]; simpl; tauto. }
  destruct He as (code & message & -> & Hin).
  exists code, message. split; [reflexivity|split; [exact Hin|]].
  intros id Hid. unfold reply. rewrite Hid. reflexivity.
Qed.

(** An ok provider reply whose JSON object has no [choices] member makes
    [analysis.choices[0]] throw a [TypeError] after the request was sent. *)
Theorem reply_without_choices_is_type_error w key body resp fields :
  fetch w key body = inl resp -> response_ok resp = true ->
  json_parse w (body_text resp) = Some (JObj fields) ->
  lookup_last "choices" fields = None ->
  post_and_extract w key body = ([Fetch key body], inr (type_error_reading "0")).
Proof.
  intros Hf Hok Hp Hc. unfold post_and_extract, perform, lift.
  rewrite bind_inl, Hf, bind_nil_inl, Hok. cbn [negb].
  unfold parse_or_throw. rewrite Hp, bind_nil_inl. cbn [get]. rewrite Hc, bind_nil_inl.
  cbn [get_index0]. rewrite bind_inr. reflexivity.
Qed.


Lemma non_object_line_gets_no_reply_witness :
  stdout (settle (on_line (world_parses (JArr [])) initial_state (list_ascii_of_string "[]"))
                 (next_task initial_state)) = stdout initial_state.
Proof.
  apply (non_object_line_gets_no_reply (world_parses (JArr [])) initial_state
           (list_ascii_of_string "[]") (JArr []));
    [split; constructor|reflexivity|reflexivity|exact I].
Defined.

Lemma unknown_method_gets_method_not_found_witness :
  stdout (settle (on_line (world_parses resources_list_request) initial_state
                          (list_ascii_of_string "{}"))
                 (next_task initial_state)) =
    (stdout initial_state ++
       [(Some (next_task initial_state),
         EnvError (JStr "7") "MethodNotFound"
           ("Unknown method: " ++ js_string_u (field resources_list_request "method")) None)])%list.
Proof.
  apply (unknown_method_gets_method_not_found (world_parses resources_list_request) initial_state
           (list_ascii_of_string "{}") resources_list_request (JStr "7"));
    [split; constructor|reflexivity|reflexivity|reflexivity|].
  intros m Hm. cbv in Hm. injection Hm as <-.
  intros [H|[H|[H|[H|[H|[]]]]]]; discriminate.
Defined.

Lemma initialized_with_id_gets_empty_result_witness :
  stdout (settle (on_line (world_parses initialized_request) initial_state
                          (list_ascii_of_string "{}"))
                 (next_task initial_state)) =
    (stdout initial_state ++ [(Some (next_task initial_state), EnvResult (JStr "7") None)])%list.
Proof.
  apply (initialized_with_id_gets_empty_result (world_parses initialized_request) initial_state
           (list_ascii_of_string "{}") initialized_request (JStr "7"));
    [split; constructor|reflexivity|reflexivity|reflexivity|reflexivity].
Defined.

Lemma rejections_are_protocol_errors_witness :
  exists code message,
    McpError "InvalidParams" "Image path must be absolute" = McpError code message /\
    In code ["MethodNotFound"; "InvalidParams"; "MissingApiKey"] /\
    forall id, request_id (call_request (JStr "1") (JObj [("image_path", JStr "shot.png")])) = Some id ->
               reply (call_request (JStr "1") (JObj [("image_path", JStr "shot.png")]))
                     (inr (McpError "InvalidParams" "Image path must be absolute")) =
                 [EnvError id code message None].
Proof.
  apply (rejections_are_protocol_errors world_401
           (call_request (JStr "1") (JObj [("image_path", JStr "shot.png")]))
           (McpError "InvalidParams" "Image path must be absolute") []).
  - split; [intros; exact I|split; [intros; exact I|split; intros; exact I]].
  - reflexivity.
Defined.

Lemma reply_without_choices_is_type_error_witness :
  post_and_extract world_no_choices "sk-test" (JObj []) =
    ([Fetch "sk-test" (JObj [])], inr (type_error_reading "0")).
Proof.
  apply (reply_without_choices_is_type_error world_no_choices "sk-test" (JObj [])
           {| status := 200; statusText := "OK"; body_text := "{}" |} []); reflexivity.
Defined.

End ServerExtras.

(** ** The OpenRouter script *)
Module CliFacts.
Import Js Effects Analyze AnalyzeFacts Cli Scenarios.
Local Open Scope string_scope.

Lemma plan_bounds maxd q md W H :
  (0 < maxd)%Z -> width md = Some W -> height md = Some H -> (0 < W)%Z -> (0 < H)%Z ->
  exists op, reencode_plan maxd q md = Some op /\ op_quality op = q /\
    ((maxd < Z.max W H)%Z ->
       Z.max (fst (output_dims W H op)) (snd (output_dims W H op)) = maxd) /\
    ((Z.max W H <= maxd)%Z -> output_dims W H op = (W, H)).
Proof.
  intros Hm Hw Hh HW HH. unfold reencode_plan. rewrite Hw, Hh.
  replace (W =? 0)%Z with false by (symmetry; apply Z.eqb_neq; lia).
  replace (H =? 0)%Z with false by (symmetry; apply Z.eqb_neq; lia).
  cbn [negb andb]. rewrite Z.gtb_ltb.
  destruct (Z.ltb_spec maxd (Z.max W H)) as [Hgt|Hle].
  - rewrite Z.gtb_ltb. destruct (Z.ltb_spec H W) as [Hlt|Hge].
    + eexists; split; [reflexivity|split; [reflexivity|]].
      split; [intros _|intros; lia]. cbn [output_dims fst snd].
      assert ((2 * H * maxd + W) / (2 * W) < maxd + 1)%Z
        by (apply Z.div_lt_upper_bound; nia).
      apply Z.max_l. lia.
    + eexists; split; [reflexivity|split; [reflexivity|]].
      split; [intros _|intros; lia]. cbn [output_dims fst snd].
      assert ((2 * W * maxd + H) / (2 * H) < maxd + 1)%Z
        by (apply Z.div_lt_upper_bound; nia).
      apply Z.max_r. lia.
  - eexists; split; [reflexivity|split; [reflexivity|]].
    split; [intros; lia|intros _; reflexivity].
Qed.

Lemma main_runs e key path rest :
  OPENROUTER_API_KEY e = Some key -> key <> "" -> args e = path :: rest ->
  main e = (fst (analyzeImage e key path (option_map JStr (nth_error (args e) 1))),
            match snd (analyzeImage e key path (option_map JStr (nth_error (args e) 1))) with
            | inl result => Printed result
            | inr err => Failed (error_message err)
            end).
Proof.
  intros Hk Hne Ha. unfold main. rewrite Hk. cbn [option_map truthy].
  apply String.eqb_neq in Hne. rewrite Hne. cbn [negb].
  rewrite Ha. cbn [length Nat.ltb Nat.leb].
  destruct (analyzeImage e key path (option_map JStr (nth_error (path :: rest) 1))) as [tr r].
  reflexivity.
Qed.



(** With the key set and a first argument, the script reads that path first, whatever it is (no absolute-path check); if the read fails, it reports the error message and exits with status 1 after no other effect. *)
Theorem cli_reads_path_unchecked e key path rest :
  OPENROUTER_API_KEY e = Some key -> key <> "" -> args e = path :: rest ->
  (exists tail, fst (main e) = ReadFile path :: tail) /\
  (forall err, read_file (io e) path = inr err ->
     main e = ([ReadFile path], Failed (error_message err)) /\
     exit_status (snd (main e)) = 1%Z).
Proof.
  intros Hk Hne Ha. rewrite (main_runs e key path rest Hk Hne Ha). split.
  - unfold analyzeImage, perform. rewrite bind_inl. eexists. reflexivity.
  - intros err Hr. unfold analyzeImage, perform, lift. rewrite bind_inl, Hr, bind_inr.
    split; reflexivity.
Qed.

(** When the image has a positive width and height, the second effect of the script is a sharp re-encoding at JPEG quality 60; a larger side above 400 is brought to 400, and an image within 400 keeps its size. *)
Theorem cli_image_bounded e key path rest img md W H :
  OPENROUTER_API_KEY e = Some key -> key <> "" -> args e = path :: rest ->
  read_file (io e) path = inl img -> sharp_metadata (io e) img = inl md ->
  width md = Some W -> height md = Some H -> (0 < W)%Z -> (0 < H)%Z ->
  exists op tail,
    fst (main e) = ReadFile path :: Sharp op :: tail /\
    op_quality op = 60%Z /\
    ((400 < Z.max W H)%Z ->
       Z.max (fst (output_dims W H op)) (snd (output_dims W H op)) = 400%Z) /\
    ((Z.max W H <= 400)%Z -> output_dims W H op = (W, H)).
Proof.
  intros Hk Hne Ha Hr Hmd Hw Hh HW HH.
  destruct (plan_bounds MAX_DIMENSION JPEG_QUALITY md W H ltac:(unfold MAX_DIMENSION; lia)
              Hw Hh HW HH) as (op & Hp & Hq & Hb1 & Hb2).
  rewrite (main_runs e key path rest Hk Hne Ha).
  exists op.
  unfold analyzeImage, perform, lift.
  rewrite bind_inl, Hr, bind_nil_inl, Hmd, bind_nil_inl, Hp. cbn beta iota.
  rewrite bind_inl.
  destruct (sharp_run (io e) img op) as [out|err]; cbn [fst snd app];
    [rewrite bind_inl|rewrite bind_inr];
    (eexists; split; [reflexivity|split; [exact Hq|split; assumption]]).
Qed.

(** When OpenRouter answers with a non-ok status, the script reports [OpenRouter API error: <statusText>], a line feed and [Details: <body>], and exits with status 1. *)
Theorem cli_provider_error_fails e key path rest img md resp :
  OPENROUTER_API_KEY e = Some key -> key <> "" -> args e = path :: rest ->
  read_file (io e) path = inl img -> sharp_metadata (io e) img = inl md ->
  (forall op, reencode_plan Cli.MAX_DIMENSION Cli.JPEG_QUALITY md = Some op ->
     exists out, sharp_run (io e) img op = inl out) ->
  (forall body, openrouter_fetch e key body = inl resp) ->
  response_ok resp = false ->
  snd (main e) = Failed ("OpenRouter API error: " ++ statusText resp ++ newline_str
                         ++ "Details: " ++ body_text resp) /\
  exit_status (snd (main e)) = 1%Z.
Proof.
  intros Hk Hne Ha Hr Hmd Hs Hf Hok.
  rewrite (main_runs e key path rest Hk Hne Ha). cbn [snd].
  unfold analyzeImage, perform, lift.
  rewrite bind_inl, Hr, bind_nil_inl, Hmd, bind_nil_inl.
  destruct (reencode_plan MAX_DIMENSION JPEG_QUALITY md) as [op|] eqn:Hp.
  - destruct (Hs op eq_refl) as [out Ho]. cbn beta iota.
    rewrite bind_inl, Ho. cbn [fst snd app]. rewrite bind_inl. cbn beta zeta.
    rewrite bind_inl, Hf, bind_nil_inl, Hok. cbn [negb snd throw].
    split; reflexivity.
  - cbn beta iota. unfold ret. rewrite bind_nil_inl. cbn beta zeta.
    rewrite bind_inl, Hf, bind_nil_inl, Hok. cbn [negb snd throw].
    split; reflexivity.
Qed.



Lemma cli_reads_path_unchecked_witness :
  (exists tail, fst (main cli_401) = ReadFile "shot.png" :: tail) /\
  (forall err, read_file (io cli_401) "shot.png" = inr err ->
     main cli_401 = ([ReadFile "shot.png"], Failed (error_message err)) /\
     exit_status (snd (main cli_401)) = 1%Z).
Proof.
  apply (cli_reads_path_unchecked cli_401 "sk-or-test" "shot.png" []);
    [reflexivity|discriminate|reflexivity].
Defined.

Lemma cli_image_bounded_witness :
  exists op tail,
    fst (main cli_401) = ReadFile "shot.png" :: Sharp op :: tail /\
    op_quality op = 60%Z /\
    ((400 < Z.max 2048 1536)%Z ->
       Z.max (fst (output_dims 2048 1536 op)) (snd (output_dims 2048 1536 op)) = 400%Z) /\
    ((Z.max 2048 1536 <= 400)%Z -> output_dims 2048 1536 op = (2048, 1536)%Z).
Proof.
  apply (cli_image_bounded cli_401 "sk-or-test" "shot.png" [] png_bytes
           {| width := Some 2048%Z; height := Some 1536%Z |} 2048%Z 1536%Z);
    try reflexivity; try discriminate; lia.
Defined.

Lemma cli_provider_error_fails_witness :
  snd (main cli_401) = Failed ("OpenRouter API error: " ++ statusText response_401 ++ newline_str
                               ++ "Details: " ++ body_text response_401) /\
  exit_status (snd (main cli_401)) = 1%Z.
Proof.
  apply (cli_provider_error_fails cli_401 "sk-or-test" "shot.png" [] png_bytes
           {| width := Some 2048%Z; height := Some 1536%Z |} response_401);
    try reflexivity; try discriminate.
  intros op _. eexists. reflexivity.
Defined.

End CliFacts.
